(** * CSP-Scout-UI: sanitizers, rate limiter, resilient fetch, cache, statistics

    A shallow embedding of [src/config.ts] (sanitizeInput, sanitizeHtml,
    checkRateLimit, the numbers and origins read from the environment),
    of the script part of the statistics component (fetchWithRetry,
    fetchWithCache, the mount callback, calculateStatistics) and of the
    search and truncation of the report table component.

    Conventions.
    - A JavaScript string is a [string]: a sequence of code units.  The
      only characters the code inspects are ASCII ones.
    - A JavaScript number holding a count or a millisecond timestamp is a
      [Z]; all the arithmetic the code does on them is exact on integers
      of that size.
    - The two process-wide [Map]s whose iteration order is never observed
      ([requestCounts], [cache]) are [gmap]s; the counting maps of
      calculateStatistics, whose insertion order decides the order of the
      tables, are association lists. *)

From Stdlib Require Import ZArith Ascii String List Lia Bool Sorted Permutation.
From Stdlib Require Import DecimalString.
From stdpp Require Import base option list strings gmap fin_maps.

Local Open Scope Z_scope.

(** ** Strings *)

Module Str.

(** The characters the sanitizers look for. *)
Definition lt : ascii := "<"%char.
Definition gt : ascii := ">"%char.
Definition apos : ascii := "'"%char.
Definition quot : ascii := "034"%char.

Definition chars (s : string) : list ascii := list_ascii_of_string s.

(** [s.replace(/[...]/g, rep)] for a character class [cls] and a
    replacement text [rep] without [$]: every code unit in the class
    is replaced by [rep], every other one is kept. *)
Fixpoint replace_class (cls : ascii -> bool) (rep : string) (s : string) : string :=
  match s with
  | EmptyString => EmptyString
  | String c s' =>
      if cls c then String.append rep (replace_class cls rep s')
      else String c (replace_class cls rep s')
  end.

(** [s.replace(/c/g, rep)] *)
Definition replace_char (c : ascii) (rep : string) (s : string) : string :=
  replace_class (Ascii.eqb c) rep s.

(** Membership of a code unit in a string. *)
Fixpoint contains (c : ascii) (s : string) : bool :=
  match s with
  | EmptyString => false
  | String c' s' => Ascii.eqb c c' || contains c s'
  end.

(** [s.includes(t)] *)
Fixpoint includes (t s : string) : bool :=
  String.prefix t s ||
  match s with
  | EmptyString => false
  | String _ s' => includes t s'
  end.

(** White space of [String.prototype.trim] among the code units below
    256: TAB, LF, VT, FF, CR, SPACE and NBSP. *)
Definition is_space (c : ascii) : bool :=
  let n := nat_of_ascii c in
  ((9 <=? n)%nat && (n <=? 13)%nat) || (n =? 32)%nat || (n =? 160)%nat.

Fixpoint trim_start (s : string) : string :=
  match s with
  | EmptyString => EmptyString
  | String c s' => if is_space c then trim_start s' else s
  end.

Fixpoint trim_end (s : string) : string :=
  match s with
  | EmptyString => EmptyString
  | String c s' =>
      match trim_end s' with
      | EmptyString => if is_space c then EmptyString else String c EmptyString
      | t => String c t
      end
  end.

Definition trim (s : string) : string := trim_end (trim_start s).

(** JavaScript truthiness of a string. *)
Definition truthy (s : string) : bool :=
  match s with EmptyString => false | _ => true end.

End Str.

(** ** src/config.ts: sanitizers *)

(** The character class of the regular expression of sanitizeInput: the
    two angle brackets, the apostrophe and the double quote. *)
Definition dangerous (c : ascii) : bool :=
  Ascii.eqb c Str.lt || Ascii.eqb c Str.gt || Ascii.eqb c Str.apos || Ascii.eqb c Str.quot.

(** Every code unit of that class is replaced by the empty string. *)
Definition sanitizeInput (input : string) : string :=
  Str.replace_class dangerous EmptyString input.

(** Four global replacements in a row, in the order of the source: the
    opening bracket, the closing bracket, the double quote, the
    apostrophe. *)
Definition sanitizeHtml (html : string) : string :=
  Str.replace_char Str.apos "&#039;"
    (Str.replace_char Str.quot "&quot;"
      (Str.replace_char Str.gt "&gt;"
        (Str.replace_char Str.lt "&lt;" html))).

(** The single-pass reading of the escaping: what each code unit becomes. *)
Definition escape_char (c : ascii) : string :=
  if Ascii.eqb c Str.lt then "&lt;"
  else if Ascii.eqb c Str.gt then "&gt;"
  else if Ascii.eqb c Str.quot then "&quot;"
  else if Ascii.eqb c Str.apos then "&#039;"
  else String c EmptyString.

Fixpoint escape_all (s : string) : string :=
  match s with
  | EmptyString => EmptyString
  | String c s' => String.append (escape_char c) (escape_all s')
  end.

(** ** src/config.ts: configuration *)

(** The numeric and boolean part of [API_CONFIG] that the code below
    reads.  Each number is [parseInt(env) || DEFAULT]: any non-zero
    integer the environment gives, else the default. *)
Record Config := {
  TIMEOUT_MS : Z;
  MAX_RETRIES : Z;
  RETRY_DELAY_MS : Z;
  CACHE_ENABLED : bool;
  DURATION_MS : Z;
  MAX_REQUESTS : Z;
  WINDOW_MS : Z
}.

Definition DEFAULT_TIMEOUT_MS : Z := 30000.
Definition DEFAULT_MAX_RETRIES : Z := 3.
Definition DEFAULT_RETRY_DELAY_MS : Z := 1000.
Definition DEFAULT_CACHE_DURATION_MS : Z := 300000.
Definition DEFAULT_RATE_LIMIT_REQUESTS : Z := 100.
Definition DEFAULT_RATE_LIMIT_WINDOW_MS : Z := 900000.

(** [API_CONFIG] when the environment sets none of the variables. *)
Definition API_CONFIG_default : Config := {|
  TIMEOUT_MS := DEFAULT_TIMEOUT_MS;
  MAX_RETRIES := DEFAULT_MAX_RETRIES;
  RETRY_DELAY_MS := DEFAULT_RETRY_DELAY_MS;
  CACHE_ENABLED := true;
  DURATION_MS := DEFAULT_CACHE_DURATION_MS;
  MAX_REQUESTS := DEFAULT_RATE_LIMIT_REQUESTS;
  WINDOW_MS := DEFAULT_RATE_LIMIT_WINDOW_MS
|}.

(** ** src/config.ts: rate limiter *)

Module RateLimit.

(** [requestCounts.get(clientId) || []] *)
Definition stored (clientId : string) (requestCounts : gmap string (list Z)) : list Z :=
  default [] (requestCounts !! clientId).

(** The predicate of the [filter]: [now - timestamp < windowMs]. *)
Definition in_window (windowMs now timestamp : Z) : bool :=
  now - timestamp <? windowMs.

(** [checkRateLimit], with the reading [now] of [Date.now()] and the
    module-level map [requestCounts] made explicit.  [filter] builds a
    new array, so the map changes only through the final [set]. *)
Definition checkRateLimit (cfg : Config) (now : Z) (clientId : string)
    (requestCounts : gmap string (list Z)) : bool * gmap string (list Z) :=
  let windowMs := WINDOW_MS cfg in
  let maxRequests := MAX_REQUESTS cfg in
  let timestamps := stored clientId requestCounts in
  let timestamps := List.filter (in_window windowMs now) timestamps in
  if Z.of_nat (length timestamps) >=? maxRequests then (false, requestCounts)
  else (true, <[clientId := timestamps ++ [now]]> requestCounts).

(** A sequence of calls, each with the clock reading it sees and the
    client id it checks; the answers in order and the final map. *)
Fixpoint check_all (cfg : Config) (calls : list (Z * string))
    (requestCounts : gmap string (list Z)) : list bool * gmap string (list Z) :=
  match calls with
  | [] => ([], requestCounts)
  | (now, clientId) :: rest =>
      let '(allowed, requestCounts') := checkRateLimit cfg now clientId requestCounts in
      let '(answers, final) := check_all cfg rest requestCounts' in
      (allowed :: answers, final)
  end.

(** Clock readings that never go back: each call sees a time at least
    that of the call before it. *)
Definition clock_monotone (calls : list (Z * string)) : Prop :=
  Sorted Z.le (map fst calls).

(** The map of a process that made the calls [calls], in this order,
    since it started (the map starts empty). *)
Definition map_after (cfg : Config) (calls : list (Z * string)) : gmap string (list Z) :=
  snd (check_all cfg calls ∅).

(** The timestamps the filter keeps at time [now]. *)
Definition kept (cfg : Config) (now : Z) (clientId : string)
    (requestCounts : gmap string (list Z)) : list Z :=
  List.filter (fun timestamp => now - timestamp <? WINDOW_MS cfg)
    (stored clientId requestCounts).

(** What holds of the map between calls when the clock has not passed
    [T]: every stored sequence is ascending, holds nothing later than
    [T], and is no longer than the limit. *)
Definition limiter_inv (cfg : Config) (T : Z) (requestCounts : gmap string (list Z)) : Prop :=
  forall c l, requestCounts !! c = Some l ->
    StronglySorted Z.le l /\ Forall (fun t => t <= T) l
    /\ Z.of_nat (length l) <= MAX_REQUESTS cfg.

End RateLimit.

(** The invariant of the stored timestamps as the specification states
    it, with no condition on the clock or on the window: after the
    calls [calls] and then a call at time [now] for [clientId], the
    sequence stored for [clientId] lies in [now - windowMs, now] and is
    ascending. *)
Definition stored_in_window_as_stated (cfg : Config) (calls : list (Z * string))
    (now : Z) (clientId : string) : Prop :=
  let l := RateLimit.stored clientId
             (RateLimit.map_after cfg (calls ++ [(now, clientId)])) in
  Forall (fun t => now - WINDOW_MS cfg <= t <= now) l /\ Sorted Z.le l.

(** ** The statistics component: data *)

(** [interface Report] of the component.  A JSON report may lack the
    referrer, which the code tests for: [None] is the absent field. *)
Record ReportBody := {
  useragent : string;
  clientip : string;
  violateddirective : string;
  referrer : option string;
  blockeduri : string
}.

Record Report := {
  _id : string;
  report : ReportBody
}.

(** What [fetchWithCache<Report[]>] yields. *)
Definition Payload : Type := list Report.

(** A [Response] as far as the code looks at it: the Content-Type
    header, the status, and what [response.json()] gives ([None] when
    the body is not JSON). *)
Record Response := {
  contentType : option string;
  status : Z;
  body : option Payload
}.

(** [response.ok] of the Fetch API: the status is in the range 200..299. *)
Definition ok (r : Response) : bool := (200 <=? status r) && (status r <=? 299).

(** The errors that can be thrown, by the message or origin they have
    in the source. *)
Inductive Error :=
| RateLimitExceeded            (* Rate limit exceeded. Please try again later. *)
| InvalidContentType           (* Invalid response content type *)
| HttpError (code : Z)         (* HTTP error! status: code *)
| NetworkFailure               (* fetch rejected: transport failure *)
| Aborted                      (* fetch rejected: the abort signal fired *)
| InvalidJson.                 (* response.json() rejected *)

(** What the network does with one request: after [latency] ms the
    promise of [fetch] is rejected or resolved with a response. *)
Inductive Settled :=
| Rejected
| Resolved (r : Response).

Record Reply := {
  latency : Z;
  settled : Settled
}.

(** The effects a caller can observe from outside. *)
Inductive Event :=
| EvFetch (url : string)       (* a call of fetch: one network request *)
| EvDelay (ms : Z).            (* a timer awaited before a retry *)

Definition is_fetch (e : Event) : bool :=
  match e with EvFetch _ => true | EvDelay _ => false end.

Definition is_delay (e : Event) : bool :=
  match e with EvDelay _ => true | EvFetch _ => false end.

(** Number of network requests, and of retry delays, in a trace. *)
Definition fetches (tr : list Event) : nat := length (List.filter is_fetch tr).
Definition delays (tr : list Event) : nat := length (List.filter is_delay tr).

(** An entry of the component's [cache] map. *)
Record CacheEntry := {
  data : Payload;
  timestamp : Z
}.

(** The mutable state the functions read and write: the clock behind
    [Date.now()], the limiter's map (module state of config.ts), the
    component's cache and flag, and the trace of effects so far. *)
Record World := {
  clock : Z;
  requestCounts : gmap string (list Z);
  cache : gmap string CacheEntry;
  rateLimitExceeded : bool;
  trace : list Event
}.

Definition set_clock (t : Z) (w : World) : World :=
  {| clock := t; requestCounts := requestCounts w; cache := cache w;
     rateLimitExceeded := rateLimitExceeded w; trace := trace w |}.

Definition set_requestCounts (m : gmap string (list Z)) (w : World) : World :=
  {| clock := clock w; requestCounts := m; cache := cache w;
     rateLimitExceeded := rateLimitExceeded w; trace := trace w |}.

Definition set_cache (c : gmap string CacheEntry) (w : World) : World :=
  {| clock := clock w; requestCounts := requestCounts w; cache := c;
     rateLimitExceeded := rateLimitExceeded w; trace := trace w |}.

Definition set_rateLimitExceeded (b : bool) (w : World) : World :=
  {| clock := clock w; requestCounts := requestCounts w; cache := cache w;
     rateLimitExceeded := b; trace := trace w |}.

Definition log (e : Event) (w : World) : World :=
  {| clock := clock w; requestCounts := requestCounts w; cache := cache w;
     rateLimitExceeded := rateLimitExceeded w; trace := trace w ++ [e] |}.

(** Time passing: the clock moves on by [ms] (never back). *)
Definition advance (ms : Z) (w : World) : World :=
  set_clock (clock w + Z.max 0 ms) w.

(** ** A monad for the asynchronous functions

    The code runs on one thread; an async function is a state
    transformer that ends by returning or by throwing, and keeps its
    effects on the state in both cases. *)

Inductive Outcome (A : Type) :=
| Return (a : A)
| Throw (e : Error).
Arguments Return {A} a.
Arguments Throw {A} e.

Definition Async (A : Type) : Type := World -> Outcome A * World.

Definition ret {A} (a : A) : Async A := fun w => (Return a, w).

Definition throw {A} (e : Error) : Async A := fun w => (Throw e, w).

Definition bind {A B} (m : Async A) (k : A -> Async B) : Async B :=
  fun w =>
    match m w with
    | (Return a, w') => k a w'
    | (Throw e, w') => (Throw e, w')
    end.

(** [try { body } catch (err) { handler }] *)
Definition try_catch {A} (body : Async A) (handler : Error -> Async A) : Async A :=
  fun w =>
    match body w with
    | (Return a, w') => (Return a, w')
    | (Throw e, w') => handler e w'
    end.

Definition modify (f : World -> World) : Async unit := fun w => (Return tt, f w).

Definition gets {A} (f : World -> A) : Async A := fun w => (Return (f w), w).

Declare Scope async_scope.
Delimit Scope async_scope with async.
Notation "'do' x <- m ; k" := (bind m (fun x => k))
  (at level 10, x name, m at level 100, k at level 200) : async_scope.
Notation "'run' m ; k" := (bind m (fun _ => k))
  (at level 10, m at level 100, k at level 200) : async_scope.

(** ** The statistics component: fetchWithRetry and fetchWithCache *)

Section Fetch.

(** The configuration, the component's [clientId], and the outside
    world: what the network answers to the n-th request ever made
    (counting from 0), to which URL. *)
Variable cfg : Config.
Variable clientId : string.
Variable network : nat -> string -> Reply.

Local Open Scope async_scope.

(** [checkRateLimit(clientId)] as an effect on the world. *)
Definition checkRateLimitA (id : string) : Async bool :=
  fun w =>
    let '(allowed, m) := RateLimit.checkRateLimit cfg (clock w) id (requestCounts w) in
    (Return allowed, set_requestCounts m w).

(** [await new Promise(resolve => setTimeout(resolve, ms))] *)
Definition delay (ms : Z) : Async unit :=
  modify (fun w => advance ms (log (EvDelay ms) w)).

(** [await fetch(url, { signal, ... })] under the abort timer of
    [TIMEOUT_MS]: one network request; the signal fires first when the
    reply takes [TIMEOUT_MS] or more. *)
Definition fetch (url : string) : Async Response :=
  fun w =>
    let reply := network (fetches (trace w)) url in
    let w1 := log (EvFetch url) w in
    if TIMEOUT_MS cfg <=? latency reply then
      (Throw Aborted, advance (TIMEOUT_MS cfg) w1)
    else
      match settled reply with
      | Rejected => (Throw NetworkFailure, advance (latency reply) w1)
      | Resolved response => (Return response, advance (latency reply) w1)
      end.

(** [contentType?.includes('application/json')], as the condition of
    an [if]: an absent header gives [undefined], which is falsy. *)
Definition is_json (r : Response) : bool :=
  match contentType r with
  | Some ct => Str.includes "application/json" ct
  | None => false
  end.

(** The two validations after [fetch], in the order of the source. *)
Definition validate (response : Response) : Async Response :=
  if negb (is_json response) then throw InvalidContentType
  else if negb (ok response) then throw (HttpError (status response))
  else ret response.

(** The body of the [try] block: one attempt. *)
Definition attempt (url : string) : Async Response :=
  do response <- fetch url; validate response.

(** [fetchWithRetry].  The recursion of the source goes through
    [retryCount + 1] while [retryCount < MAX_RETRIES]; [budget] bounds
    it structurally.  [fetchWithRetry_unfold] below shows that with the
    budget [fetchWithRetry] passes, the branch for an empty budget is
    never taken, so that the function satisfies the recursive equation
    of the source. *)
Fixpoint fetchWithRetry_from (budget : nat) (url : string) (retryCount : Z)
    : Async Response :=
  do allowed <- checkRateLimitA clientId;
  if negb allowed then
    run modify (set_rateLimitExceeded true);
    throw RateLimitExceeded
  else
    try_catch (attempt url)
      (fun err =>
         if retryCount <? MAX_RETRIES cfg then
           match budget with
           | S budget' =>
               run delay (RETRY_DELAY_MS cfg);
               fetchWithRetry_from budget' url (retryCount + 1)
           | O => throw err
           end
         else throw err).

Definition fetchWithRetry (url : string) (retryCount : Z) : Async Response :=
  fetchWithRetry_from (Z.to_nat (MAX_RETRIES cfg - retryCount)) url retryCount.

(** [await response.json()] *)
Definition json (response : Response) : Async Payload :=
  match body response with
  | Some d => ret d
  | None => throw InvalidJson
  end.

(** The cache lookup at the head of [fetchWithCache]: the stored data
    when caching is enabled, an entry exists and it is fresh. *)
Definition cache_hit (url : string) (w : World) : option Payload :=
  if CACHE_ENABLED cfg then
    match cache w !! url with
    | Some cached =>
        let now := clock w in
        if now - timestamp cached <? DURATION_MS cfg then Some (data cached) else None
    | None => None
    end
  else None.

(** [cache.set(url, { data, timestamp: Date.now() })] *)
Definition cache_store (url : string) (d : Payload) : Async unit :=
  modify (fun w =>
    set_cache (<[url := {| data := d; timestamp := clock w |}]> (cache w)) w).

Definition fetchWithCache (url : string) : Async Payload :=
  do hit <- gets (cache_hit url);
  match hit with
  | Some d => ret d
  | None =>
      do response <- fetchWithRetry url 0;
      do d <- json response;
      run (if CACHE_ENABLED cfg then cache_store url d else ret tt);
      ret d
  end.

(** *** Views of the code used to state its properties *)

(** Whether the limiter lets the component through in world [w], and
    the world after that check. *)
Definition limiter_allows (w : World) : bool :=
  fst (RateLimit.checkRateLimit cfg (clock w) clientId (requestCounts w)).

Definition checked (w : World) : World :=
  set_requestCounts
    (snd (RateLimit.checkRateLimit cfg (clock w) clientId (requestCounts w))) w.

(** How an attempt ends when the network gives [reply]: the four
    failures (abort on timeout, transport failure, wrong content type,
    status outside 200..299) or the response. *)
Definition attempt_outcome (reply : Reply) : Outcome Response :=
  if TIMEOUT_MS cfg <=? latency reply then Throw Aborted
  else
    match settled reply with
    | Rejected => Throw NetworkFailure
    | Resolved response =>
        if negb (is_json response) then Throw InvalidContentType
        else if negb (ok response) then Throw (HttpError (status response))
        else Return response
    end.

(** The time an attempt takes. *)
Definition attempt_elapsed (reply : Reply) : Z :=
  if TIMEOUT_MS cfg <=? latency reply then TIMEOUT_MS cfg else latency reply.

(** The world after the retry delay. *)
Definition delayed (w : World) : World :=
  advance (RETRY_DELAY_MS cfg) (log (EvDelay (RETRY_DELAY_MS cfg)) w).

(** The number of timestamps the limiter holds for the component. *)
Definition slots_used (w : World) : Z :=
  Z.of_nat (length (RateLimit.stored clientId (requestCounts w))).

(** The reading of the specification's error-handling section that a
    rate-limit failure is retried like the other failures: a denied
    call with retries left goes on to a retry delay. *)
Definition denial_is_retried (url : string) (retryCount : Z) (w : World) : Prop :=
  limiter_allows w = false ->
  retryCount < MAX_RETRIES cfg ->
  (delays (trace w) < delays (trace (snd (fetchWithRetry url retryCount w))))%nat.

End Fetch.

(** ** The statistics component: calculateStatistics *)

(** A counting [Map<string, number>]: keys in insertion order, each key
    once. *)
Module Counts.

Definition t : Type := list (string * Z).

(** [m.get(k)] *)
Fixpoint get (k : string) (m : t) : option Z :=
  match m with
  | [] => None
  | (k', v) :: m' => if String.eqb k k' then Some v else get k m'
  end.

(** [m.set(k, v)]: an existing key keeps its place, a new key goes
    to the end. *)
Fixpoint set (k : string) (v : Z) (m : t) : t :=
  match m with
  | [] => [(k, v)]
  | (k', v') :: m' =>
      if String.eqb k k' then (k', v) :: m' else (k', v') :: set k v m'
  end.

(** [m.set(k, (m.get(k) || 0) + 1)] *)
Definition bump (k : string) (m : t) : t :=
  set k (default 0 (get k m) + 1) m.

(** The counting loop for one field: [keys] are the group keys of the
    reports in order. *)
Definition count_all (keys : list string) : t :=
  fold_left (fun m k => bump k m) keys [].

(** The state of the counting loop: keys once each, counts positive. *)
Definition counts_ok (m : t) : Prop :=
  NoDup (map fst m) /\ forall k c, In (k, c) m -> 0 < c.

End Counts.

(** A row of a statistics table.  The source names the first field
    after the table (useragent, ip, directive, referrer, uri, os,
    browser); here it is [key] for all of them. *)
Record Entry := {
  key : string;
  count : Z
}.

(** [arr.sort((a, b) => b.count - a.count)]: descending by count, and
    stable, as the language requires of [sort]. *)
Fixpoint insert_desc (a : Entry) (l : list Entry) : list Entry :=
  match l with
  | [] => [a]
  | b :: l' => if count a <? count b then b :: insert_desc a l' else a :: b :: l'
  end.

Fixpoint sort_desc (l : list Entry) : list Entry :=
  match l with
  | [] => []
  | a :: l' => insert_desc a (sort_desc l')
  end.

(** [Array.from(m.entries()).map(([key, count]) => ({ key, count }))
      .sort((a, b) => b.count - a.count).slice(0, 10)] *)
Definition entries (m : Counts.t) : list Entry :=
  map (fun '(k, c) => {| key := k; count := c |}) m.

Definition top10 (m : Counts.t) : list Entry :=
  take 10 (sort_desc (entries m)).

(** What the user-agent parser returns, as far as the code reads it;
    [None] is an absent name or version. *)
Record UAResult := {
  os_name : option string;
  os_version : option string;
  browser_name : option string;
  browser_version : option string
}.

(** [x || fallback] for a possibly absent string. *)
Definition or_else (x : option string) (fallback : string) : string :=
  match x with
  | Some s => if Str.truthy s then s else fallback
  | None => fallback
  end.

(** The seven tables the component shows. *)
Record Statistics := {
  topUserAgents : list Entry;
  topIPs : list Entry;
  topViolatedDirectives : list Entry;
  topReferrers : list Entry;
  topBlockedURIs : list Entry;
  topOS : list Entry;
  topBrowsers : list Entry
}.

(** The seven counting maps of the loop. *)
Record Tally := {
  userAgentCounts : Counts.t;
  ipCounts : Counts.t;
  directiveCounts : Counts.t;
  referrerCounts : Counts.t;
  blockedURICounts : Counts.t;
  osCounts : Counts.t;
  browserCounts : Counts.t
}.

Section Statistics.

(** The third-party parser: [parser.setUA(ua); parser.getResult()]. *)
Variable parseUA : string -> UAResult.

(** The referrer key of a report: empty when the field is absent or
    empty, else the sanitized field. *)
Definition referrer_key (r : Report) : string :=
  match referrer (report r) with
  | Some s => if Str.truthy s then sanitizeInput s else EmptyString
  | None => EmptyString
  end.

(** The template [name-or-Unknown, a space, version-or-empty], trimmed
    and sanitized. *)
Definition name_version (name version : option string) : string :=
  sanitizeInput
    (Str.trim (String.append (or_else name "Unknown")
                 (String.append " " (or_else version EmptyString)))).

(** The body of [reports.forEach]. *)
Definition tally_report (acc : Tally) (r : Report) : Tally :=
  let ua := sanitizeInput (useragent (report r)) in
  let ip := sanitizeInput (clientip (report r)) in
  let directive := sanitizeInput (violateddirective (report r)) in
  let referrer := referrer_key r in
  let uri := sanitizeInput (blockeduri (report r)) in
  let result := parseUA ua in
  let os := name_version (os_name result) (os_version result) in
  let browser := name_version (browser_name result) (browser_version result) in
  {| userAgentCounts := Counts.bump ua (userAgentCounts acc);
     ipCounts := Counts.bump ip (ipCounts acc);
     directiveCounts := Counts.bump directive (directiveCounts acc);
     referrerCounts :=
       if Str.truthy referrer then Counts.bump referrer (referrerCounts acc)
       else referrerCounts acc;
     blockedURICounts := Counts.bump uri (blockedURICounts acc);
     osCounts := Counts.bump os (osCounts acc);
     browserCounts := Counts.bump browser (browserCounts acc) |}.

Definition empty_tally : Tally :=
  {| userAgentCounts := []; ipCounts := []; directiveCounts := [];
     referrerCounts := []; blockedURICounts := []; osCounts := [];
     browserCounts := [] |}.

Definition tally (reports : list Report) : Tally :=
  fold_left tally_report reports empty_tally.

Definition calculateStatistics (reports : list Report) : Statistics :=
  let counts := tally reports in
  {| topUserAgents := top10 (userAgentCounts counts);
     topIPs := top10 (ipCounts counts);
     topViolatedDirectives := top10 (directiveCounts counts);
     topReferrers := top10 (referrerCounts counts);
     topBlockedURIs := top10 (blockedURICounts counts);
     topOS := top10 (osCounts counts);
     topBrowsers := top10 (browserCounts counts) |}.

(** The group keys of the seven tables. *)
Definition ua_key (r : Report) : string := sanitizeInput (useragent (report r)).
Definition ip_key (r : Report) : string := sanitizeInput (clientip (report r)).
Definition directive_key (r : Report) : string := sanitizeInput (violateddirective (report r)).
Definition uri_key (r : Report) : string := sanitizeInput (blockeduri (report r)).
Definition os_key (r : Report) : string :=
  let result := parseUA (ua_key r) in name_version (os_name result) (os_version result).
Definition browser_key (r : Report) : string :=
  let result := parseUA (ua_key r) in name_version (browser_name result) (browser_version result).

End Statistics.

(** The specification's reading of a frequency table, to compare the
    counting loop with: how many of the keys equal [k]. *)
Definition occurrences (k : string) (keys : list string) : Z :=
  Z.of_nat (length (List.filter (String.eqb k) keys)).

(** [a] may come before [b] in a table. *)
Definition before (a b : Entry) : Prop := count b <= count a.

(** Descending by count. *)
Definition descending (l : list Entry) : Prop := Sorted before l.

(** The specification's reading of a statistics table over the group
    keys [keys] of the reports: at most ten rows, descending by count,
    one row per key, each with the number of reports of that key, and
    no key left out that has more reports than a row of the table. *)
Definition is_top10 (keys : list string) (table : list Entry) : Prop :=
  descending table
  /\ (length table <= 10)%nat
  /\ NoDup (map key table)
  /\ (forall e, In e table -> In (key e) keys /\ count e = occurrences (key e) keys)
  /\ (forall k, In k keys ->
        (exists e, In e table /\ key e = k)
        \/ (length table = 10%nat /\ forall e, In e table -> occurrences k keys <= count e)).

(** A report has a referrer when the field is present and not empty. *)
Definition has_referrer (r : Report) : bool :=
  match referrer (report r) with
  | Some s => Str.truthy s
  | None => false
  end.

(** The scenario of the specification for the table of IPs, read on the
    raw [clientip] field: five reports, exactly three of them with the
    field equal to 9.9.9.9, give a first row with that key and count 3. *)
Definition top_ip_scenario_as_stated (parseUA : string -> UAResult)
    (reports : list Report) : Prop :=
  length reports = 5%nat ->
  length (List.filter (fun r => String.eqb (clientip (report r)) "9.9.9.9") reports) = 3%nat ->
  head (topIPs (calculateStatistics parseUA reports))
  = Some {| key := "9.9.9.9"; count := 3 |}.

(** ** Concrete inputs for the examples *)

(** The limiter of the scenario: three requests per 1000 ms. *)
Definition config_3_per_1000 : Config := {|
  TIMEOUT_MS := DEFAULT_TIMEOUT_MS;
  MAX_RETRIES := DEFAULT_MAX_RETRIES;
  RETRY_DELAY_MS := DEFAULT_RETRY_DELAY_MS;
  CACHE_ENABLED := true;
  DURATION_MS := DEFAULT_CACHE_DURATION_MS;
  MAX_REQUESTS := 3;
  WINDOW_MS := 1000
|}.

(** One request per 1000 ms, three retries. *)
Definition config_1_per_1000 : Config := {|
  TIMEOUT_MS := DEFAULT_TIMEOUT_MS;
  MAX_RETRIES := DEFAULT_MAX_RETRIES;
  RETRY_DELAY_MS := DEFAULT_RETRY_DELAY_MS;
  CACHE_ENABLED := true;
  DURATION_MS := DEFAULT_CACHE_DURATION_MS;
  MAX_REQUESTS := 1;
  WINDOW_MS := 1000
|}.

(** A window set to a negative number through the environment. *)
Definition config_negative_window : Config := {|
  TIMEOUT_MS := DEFAULT_TIMEOUT_MS;
  MAX_RETRIES := DEFAULT_MAX_RETRIES;
  RETRY_DELAY_MS := DEFAULT_RETRY_DELAY_MS;
  CACHE_ENABLED := true;
  DURATION_MS := DEFAULT_CACHE_DURATION_MS;
  MAX_REQUESTS := DEFAULT_RATE_LIMIT_REQUESTS;
  WINDOW_MS := -5
|}.

(** A page that has just been loaded. *)
Definition fresh_world : World := {|
  clock := 0;
  requestCounts := ∅;
  cache := ∅;
  rateLimitExceeded := false;
  trace := []
|}.

(** A world in which the client [client_1] made a request 10 ms ago. *)
Definition throttled_world : World := {|
  clock := 10;
  requestCounts := {[ "client_1" := [0] ]};
  cache := ∅;
  rateLimitExceeded := false;
  trace := []
|}.

Definition report_from (ip : string) : Report := {|
  _id := "1";
  report := {| useragent := "Mozilla/5.0"; clientip := ip;
               violateddirective := "script-src"; referrer := None;
               blockeduri := "http://evil.example" |}
|}.

(** A JSON answer with status 200, after 20 ms. *)
Definition reply_ok (d : Payload) : Reply := {|
  latency := 20;
  settled := Resolved {| contentType := Some "application/json; charset=utf-8";
                         status := 200; body := Some d |}
|}.

(** A JSON answer with status 500, after 20 ms. *)
Definition reply_500 : Reply := {|
  latency := 20;
  settled := Resolved {| contentType := Some "application/json";
                         status := 500; body := None |}
|}.

(** A network that answers 500 to its first [n] requests and 200 to the
    ones after. *)
Definition network_failing_first (n : nat) (d : Payload) : nat -> string -> Reply :=
  fun i _ => if (i <? n)%nat then reply_500 else reply_ok d.

(** A parser that recognizes nothing. *)
Definition parse_nothing : string -> UAResult :=
  fun _ => {| os_name := None; os_version := None;
              browser_name := None; browser_version := None |}.

(** Five reports: three from 9.9.9.9, one whose client IP field is
    9.9.9.9 between angle brackets, one from 1.1.1.1. *)
Definition five_reports : list Report :=
  [report_from "9.9.9.9"; report_from "1.1.1.1"; report_from "9.9.9.9";
   report_from "<9.9.9.9>"; report_from "9.9.9.9"].

(** Five reports: three from 9.9.9.9, two from 1.1.1.1, one of these
    with the field in quotes. *)
Definition five_plain_reports : list Report :=
  [report_from "9.9.9.9"; report_from "1.1.1.1"; report_from "9.9.9.9";
   report_from "'1.1.1.1'"; report_from "9.9.9.9"].

(** A network that answers 500 always. *)
Definition network_down : nat -> string -> Reply := fun _ _ => reply_500.


(** A text free of the four characters of the sanitizers. *)
Definition harmless (s : string) : Prop :=
  forall c, dangerous c = true -> Str.contains c s = false.

(** ** src/config.ts: the rest of the configuration *)

Module Env.

(** The value of a character as a digit, letters counting from ten. *)
Definition digit_of (c : ascii) : option Z :=
  let n := Z.of_nat (nat_of_ascii c) in
  if (48 <=? n) && (n <=? 57) then Some (n - 48)
  else if (97 <=? n) && (n <=? 122) then Some (n - 87)
  else if (65 <=? n) && (n <=? 90) then Some (n - 55)
  else None.

Definition digit_in (radix : Z) (c : ascii) : option Z :=
  match digit_of c with
  | Some d => if d <? radix then Some d else None
  | None => None
  end.

(** The longest prefix of digits, as a number; [acc] is [None] until a
    digit has been read. *)
Fixpoint read_digits (radix : Z) (acc : option Z) (s : string) : option Z :=
  match s with
  | EmptyString => acc
  | String c s' =>
      match digit_in radix c with
      | Some d => read_digits radix (Some (radix * default 0 acc + d)) s'
      | None => acc
      end
  end.

(** [parseInt(s)] of the language, without a radix argument: leading
    white space is skipped, then a sign, then a hexadecimal prefix,
    then the longest run of digits is read; [None] is NaN.  The result
    is the integer read, which is the Number the language gives up to
    2^53. *)
Definition parseInt (s : string) : option Z :=
  let s := Str.trim_start s in
  let '(sign, s) :=
    match s with
    | String "-" s' => (-1, s')
    | String "+" s' => (1, s')
    | _ => (1, s)
    end in
  let '(radix, s) :=
    match s with
    | String "0" (String "x" s') => (16, s')
    | String "0" (String "X" s') => (16, s')
    | _ => (10, s)
    end in
  option_map (Z.mul sign) (read_digits radix None s).

(** [parseInt(env || '') || fallback]: NaN and zero are falsy. *)
Definition number_or (env : option string) (fallback : Z) : Z :=
  match parseInt (default EmptyString env) with
  | Some n => if n =? 0 then fallback else n
  | None => fallback
  end.

(** The variables of [import.meta.env] that the numbers and the origins
    come from; [None] is a variable that is not set. *)
Record ImportMetaEnv := {
  VITE_API_TIMEOUT : option string;
  VITE_API_MAX_RETRIES : option string;
  VITE_API_RETRY_DELAY : option string;
  VITE_API_CACHE_DURATION : option string;
  VITE_API_RATE_LIMIT_REQUESTS : option string;
  VITE_API_RATE_LIMIT_WINDOW_MS : option string;
  VITE_ALLOWED_ORIGINS : option string
}.

(** The numbers of [API_CONFIG] as the module computes them. *)
Definition API_CONFIG_of (env : ImportMetaEnv) : Config := {|
  TIMEOUT_MS := number_or (VITE_API_TIMEOUT env) DEFAULT_TIMEOUT_MS;
  MAX_RETRIES := number_or (VITE_API_MAX_RETRIES env) DEFAULT_MAX_RETRIES;
  RETRY_DELAY_MS := number_or (VITE_API_RETRY_DELAY env) DEFAULT_RETRY_DELAY_MS;
  CACHE_ENABLED := true;
  DURATION_MS := number_or (VITE_API_CACHE_DURATION env) DEFAULT_CACHE_DURATION_MS;
  MAX_REQUESTS := number_or (VITE_API_RATE_LIMIT_REQUESTS env) DEFAULT_RATE_LIMIT_REQUESTS;
  WINDOW_MS := number_or (VITE_API_RATE_LIMIT_WINDOW_MS env) DEFAULT_RATE_LIMIT_WINDOW_MS
|}.

(** [s.split(sep)] for a separator of one character: the pieces between
    the separators, the empty ones too. *)
Fixpoint split (sep : ascii) (s : string) : list string :=
  match s with
  | EmptyString => [EmptyString]
  | String c s' =>
      if Ascii.eqb c sep then EmptyString :: split sep s'
      else
        match split sep s' with
        | piece :: pieces => String c piece :: pieces
        | [] => [String c EmptyString]
        end
  end.

(** [pieces.join(sep)] *)
Fixpoint join (sep : ascii) (pieces : list string) : string :=
  match pieces with
  | [] => EmptyString
  | [piece] => piece
  | piece :: rest => String.append piece (String sep (join sep rest))
  end.

Definition comma : ascii := ","%char.

Definition default_origins : list string :=
  ["http://localhost:3000"; "http://localhost:8081"].

(** [allowedOrigins]: the variable split at the commas when it is set
    and not empty, else the two local origins. *)
Definition allowedOrigins (env : ImportMetaEnv) : list string :=
  match VITE_ALLOWED_ORIGINS env with
  | Some s => if Str.truthy s then split comma s else default_origins
  | None => default_origins
  end.

(** [API_CONFIG.SECURITY.CORS.ALLOWED_ORIGINS.includes(origin)] *)
Definition isOriginAllowed (env : ImportMetaEnv) (origin : string) : bool :=
  existsb (String.eqb origin) (allowedOrigins env).

(** The [connect-src] directive of the configuration. *)
Definition connect_src (env : ImportMetaEnv) : list string :=
  "'self'" :: allowedOrigins env.

(** An environment that sets nothing. *)
Definition empty_env : ImportMetaEnv := {|
  VITE_API_TIMEOUT := None; VITE_API_MAX_RETRIES := None;
  VITE_API_RETRY_DELAY := None; VITE_API_CACHE_DURATION := None;
  VITE_API_RATE_LIMIT_REQUESTS := None; VITE_API_RATE_LIMIT_WINDOW_MS := None;
  VITE_ALLOWED_ORIGINS := None
|}.

End Env.

(** ** src/config.ts: what the limiter has let through *)

(** The times of the calls of client [c] that a run of calls answers
    with true, in order. *)
Fixpoint allowed_times (cfg : Config) (c : string) (calls : list (Z * string))
    (requestCounts : gmap string (list Z)) : list Z :=
  match calls with
  | [] => []
  | (now, clientId) :: rest =>
      let '(allowed, requestCounts') :=
        RateLimit.checkRateLimit cfg now clientId requestCounts in
      (if allowed && String.eqb c clientId then [now] else [])
      ++ allowed_times cfg c rest requestCounts'
  end.

(** From time [T] on, the stored timestamps of [c] that are in the
    window are the allowed calls [h] of [c] that are in the window. *)
Definition window_agrees (cfg : Config) (c : string) (T : Z) (h : list Z)
    (requestCounts : gmap string (list Z)) : Prop :=
  forall T', T <= T' ->
    List.filter (RateLimit.in_window (WINDOW_MS cfg) T') h
    = List.filter (RateLimit.in_window (WINDOW_MS cfg) T')
        (RateLimit.stored c requestCounts).

(** ** The report table component: search and truncation *)

Module Table.

(** [interface ReportData] and [interface Report] of the component. *)
Record ReportData := {
  documenturi : string;
  referrer : string;
  violateddirective : string;
  effectivedirective : string;
  originalpolicy : string;
  disposition : string;
  blockeduri : string;
  linenumber : Z;
  sourcefile : string;
  statuscode : Z;
  scriptsample : string;
  clientip : string;
  useragent : string;
  reporttime : Z
}.

Record Report := {
  _id : string;
  report : ReportData
}.

(** [toLowerCase] on code units below 256: the letters A to Z and the
    capital letters of the upper half (192 to 222 without 215) move up
    by 32. *)
Definition to_lower_char (c : ascii) : ascii :=
  let n := nat_of_ascii c in
  if ((65 <=? n) && (n <=? 90) || (192 <=? n) && (n <=? 214)
      || (216 <=? n) && (n <=? 222))%nat
  then ascii_of_nat (n + 32) else c.

Fixpoint toLowerCase (s : string) : string :=
  match s with
  | EmptyString => EmptyString
  | String c s' => String (to_lower_char c) (toLowerCase s')
  end.

(** The predicate of the reactive filter, for the sanitized query. *)
Definition matches (sanitizedQuery : string) (r : Report) : bool :=
  Str.includes sanitizedQuery (toLowerCase (violateddirective (report r)))
  || Str.includes sanitizedQuery (toLowerCase (blockeduri (report r)))
  || Str.includes sanitizedQuery (toLowerCase (clientip (report r)))
  || Str.includes sanitizedQuery (toLowerCase (useragent (report r))).

(** The reactive block that computes [filteredReports]. *)
Definition filterReports (searchQuery : string) (reports : list Report) : list Report :=
  let sanitizedQuery := sanitizeInput (toLowerCase searchQuery) in
  List.filter (matches sanitizedQuery) reports.

(** [s.substring(0, n)]: a negative [n] counts as 0, one beyond the
    length as the length. *)
Definition substring_to (n : Z) (s : string) : string :=
  String.substring 0 (Z.to_nat n) s.

Definition length (s : string) : Z := Z.of_nat (String.length s).

(** [truncate(str, maxLength)]; the callers leave [maxLength] at 50. *)
Definition truncate (str : string) (maxLength : Z) : string :=
  let sanitized := sanitizeHtml str in
  if length sanitized >? maxLength
  then String.append (substring_to maxLength sanitized) "..."
  else sanitized.

End Table.

(** ** The statistics component: the rows of the tables *)

(** All the rows of the seven tables. *)
Definition all_rows (s : Statistics) : list Entry :=
  topUserAgents s ++ topIPs s ++ topViolatedDirectives s ++ topReferrers s
  ++ topBlockedURIs s ++ topOS s ++ topBrowsers s.

(** The six tables to which every report adds one. *)
Definition full_tables (s : Statistics) : list (list Entry) :=
  [topUserAgents s; topIPs s; topViolatedDirectives s; topBlockedURIs s;
   topOS s; topBrowsers s].

(** The sum of the counts of a table. *)
Definition total (table : list Entry) : Z :=
  fold_right (fun e acc => count e + acc) 0 table.

(** ** The statistics component: views of the runs and the mounted view *)

(** The trace of [k] failed attempts, each followed by its delay. *)
Fixpoint retry_rounds (url : string) (ms : Z) (k : nat) : list Event :=
  match k with
  | O => []
  | S k' => EvFetch url :: EvDelay ms :: retry_rounds url ms k'
  end.

Definition is_rate_limit {A} (o : Outcome A) : bool :=
  match o with
  | Throw RateLimitExceeded => true
  | _ => false
  end.


Module StatsView.

(** The state variables of the component. *)
Record Component := {
  reports : list Report;
  loading : bool;
  error : option string;
  statistics : Statistics
}.

Definition no_statistics : Statistics := {|
  topUserAgents := []; topIPs := []; topViolatedDirectives := [];
  topReferrers := []; topBlockedURIs := []; topOS := []; topBrowsers := []
|}.

(** The component when it is created. *)
Definition initial : Component := {|
  reports := []; loading := true; error := None; statistics := no_statistics
|}.

(** What the template shows: its four branches, in their order. *)
Inductive View :=
| Spinner
| ErrorBanner (text : string)
| RateLimitWarning
| Tables (stats : Statistics).

Section Mount.

Variable cfg : Config.
Variable clientId : string.
Variable network : nat -> string -> Reply.
Variable parseUA : string -> UAResult.

(** [API_CONFIG.BASE_URL] and the messages of the errors that the host
    throws (a rejected fetch, an abort, a body that is not JSON). *)
Variable BASE_URL : string.
Variable hostMessage : Error -> string.

(** [err.message] *)
Definition message (e : Error) : string :=
  match e with
  | RateLimitExceeded => "Rate limit exceeded. Please try again later."
  | InvalidContentType => "Invalid response content type"
  | HttpError code =>
      String.append "HTTP error! status: " (NilZero.string_of_int (Z.to_int code))
  | NetworkFailure | Aborted | InvalidJson => hostMessage e
  end.

Definition reports_url : string := String.append BASE_URL "/api/v1/reports".

(** The callback of [onMount]. *)
Definition onMount (s : World * Component) : World * Component :=
  let '(w, c) := s in
  match fetchWithCache cfg clientId network reports_url w with
  | (Return fetched, w') =>
      (w', {| reports := fetched; loading := false; error := error c;
              statistics := calculateStatistics parseUA fetched |})
  | (Throw err, w') =>
      (w', {| reports := reports c; loading := false; error := Some (message err);
              statistics := statistics c |})
  end.

End Mount.

(** The branch of the template that is shown. *)
Definition render (s : World * Component) : View :=
  let '(w, c) := s in
  if loading c then Spinner
  else
    match error c with
    | Some text =>
        if Str.truthy text then ErrorBanner (sanitizeHtml text)
        else if rateLimitExceeded w then RateLimitWarning
        else Tables (statistics c)
    | None =>
        if rateLimitExceeded w then RateLimitWarning else Tables (statistics c)
    end.

End StatsView.

(** A report as the table component receives it. *)
Definition sample_table_report : Table.Report := {|
  Table._id := "1";
  Table.report := {|
    Table.documenturi := "http://site.example/";
    Table.referrer := EmptyString;
    Table.violateddirective := "script-src";
    Table.effectivedirective := "script-src";
    Table.originalpolicy := "default-src 'self'";
    Table.disposition := "enforce";
    Table.blockeduri := "http://EVIL.example";
    Table.linenumber := 1;
    Table.sourcefile := EmptyString;
    Table.statuscode := 200;
    Table.scriptsample := EmptyString;
    Table.clientip := "1.2.3.4";
    Table.useragent := "Mozilla/5.0";
    Table.reporttime := 1700000000
  |}
|}.

(** * Properties *)

(** ** The code on small inputs *)

Example sanitizeInput_example :
  sanitizeInput "<a href='x'>b</a>" = "a href=xb/a".
Proof. reflexivity. Qed.

Example sanitizeHtml_example :
  sanitizeHtml "<a href='x'>" = "&lt;a href=&#039;x&#039;&gt;".
Proof. reflexivity. Qed.

Example sanitizeHtml_twice_example :
  sanitizeHtml (sanitizeHtml "<b>") = "&lt;b&gt;".
Proof. reflexivity. Qed.

Example checkRateLimit_example :
  RateLimit.check_all config_3_per_1000
    [(0, "a"); (10, "a"); (20, "a"); (30, "a"); (1005, "a"); (1006, "a")] ∅
  = ([true; true; true; false; true; false], {[ "a" := [10; 20; 1005] ]}).
Proof. vm_compute. reflexivity. Qed.

Example fetchWithRetry_example :
  let result := fetchWithRetry API_CONFIG_default "client_1" network_down
                  "/api/v1/reports" 0 fresh_world in
  fst result = Throw (HttpError 500)
  /\ trace (snd result)
     = [EvFetch "/api/v1/reports"; EvDelay 1000; EvFetch "/api/v1/reports"; EvDelay 1000;
        EvFetch "/api/v1/reports"; EvDelay 1000; EvFetch "/api/v1/reports"]
  /\ RateLimit.stored "client_1" (requestCounts (snd result)) = [0; 1020; 2040; 3060].
Proof. vm_compute. repeat split. Qed.

Example fetchWithRetry_throttled_example :
  let result := fetchWithRetry config_1_per_1000 "client_1" network_down
                  "/api/v1/reports" 0 throttled_world in
  fst result = Throw RateLimitExceeded /\ trace (snd result) = [].
Proof. vm_compute. repeat split. Qed.

Example calculateStatistics_example :
  topIPs (calculateStatistics parse_nothing five_reports)
  = [{| key := "9.9.9.9"; count := 4 |}; {| key := "1.1.1.1"; count := 1 |}].
Proof. reflexivity. Qed.

Example sort_desc_stable_example :
  sort_desc [{| key := "a"; count := 1 |}; {| key := "b"; count := 2 |};
             {| key := "c"; count := 1 |}; {| key := "d"; count := 2 |}]
  = [{| key := "b"; count := 2 |}; {| key := "d"; count := 2 |};
     {| key := "a"; count := 1 |}; {| key := "c"; count := 1 |}].
Proof. reflexivity. Qed.

(** ** Sanitizers *)

Section SanitizerFacts.

Lemma append_nil_l (t : string) : String.append EmptyString t = t.
Proof. reflexivity. Qed.

Lemma append_cons (c : ascii) (s t : string) :
  String.append (String c s) t = String c (String.append s t).
Proof. reflexivity. Qed.

Lemma append_assoc (s t u : string) :
  String.append (String.append s t) u = String.append s (String.append t u).
Proof.
  induction s as [|c s IH]; [reflexivity|].
  now rewrite !append_cons, IH.
Qed.

Lemma replace_class_app cls rep (s t : string) :
  Str.replace_class cls rep (String.append s t)
  = String.append (Str.replace_class cls rep s) (Str.replace_class cls rep t).
Proof.
  induction s as [|c s IH]; [reflexivity|].
  rewrite append_cons. simpl. rewrite IH.
  destruct (cls c); [now rewrite append_assoc | now rewrite append_cons].
Qed.

Lemma contains_app c (s t : string) :
  Str.contains c (String.append s t) = Str.contains c s || Str.contains c t.
Proof.
  induction s as [|c' s IH]; [reflexivity|].
  rewrite append_cons. simpl. now rewrite IH, orb_assoc.
Qed.

(** A text without characters of the class is left alone. *)
Lemma replace_class_clean cls rep (s : string) :
  (forall c, cls c = true -> Str.contains c s = false) ->
  Str.replace_class cls rep s = s.
Proof.
  induction s as [|c s IH]; simpl; intros H; [reflexivity|].
  destruct (cls c) eqn:E.
  - specialize (H c E). now rewrite Ascii.eqb_refl in H.
  - f_equal. apply IH. intros d Hd. specialize (H d Hd).
    now apply orb_false_iff in H.
Qed.

Lemma chars_append (s t : string) :
  Str.chars (String.append s t) = Str.chars s ++ Str.chars t.
Proof.
  unfold Str.chars. induction s as [|c s IH]; [reflexivity|].
  rewrite append_cons. simpl. now rewrite IH.
Qed.

Lemma sanitizeInput_chars (s : string) :
  Str.chars (sanitizeInput s)
  = List.filter (fun c => negb (dangerous c)) (Str.chars s).
Proof.
  unfold sanitizeInput, Str.chars.
  induction s as [|c s IH]; simpl; [reflexivity|].
  destruct (dangerous c); [rewrite append_nil_l | simpl]; now rewrite IH.
Qed.

Lemma sanitizeInput_clean (s : string) (c : ascii) :
  dangerous c = true -> Str.contains c (sanitizeInput s) = false.
Proof.
  intros Hc. unfold sanitizeInput.
  induction s as [|d s IH]; simpl; [reflexivity|].
  destruct (dangerous d) eqn:Ed; [rewrite append_nil_l; exact IH|].
  simpl. rewrite IH, orb_false_r.
  destruct (Ascii.eqb_spec c d) as [->|]; congruence.
Qed.

Lemma filter_sublist {A} (p : A -> bool) (l : list A) :
  sublist (List.filter p l) l.
Proof.
  induction l as [|x l IH]; simpl; [constructor|].
  destruct (p x); now constructor.
Qed.

Lemma escape_char_clean (c d : ascii) :
  dangerous d = true -> Str.contains d (escape_char c) = false.
Proof.
  intros Hd. unfold escape_char.
  unfold dangerous in Hd.
  destruct (Ascii.eqb_spec c Str.lt); [|destruct (Ascii.eqb_spec c Str.gt);
    [|destruct (Ascii.eqb_spec c Str.quot); [|destruct (Ascii.eqb_spec c Str.apos)]]].
  1-4: repeat (apply orb_true_iff in Hd; destruct Hd as [Hd|Hd]);
       apply Ascii.eqb_eq in Hd; subst d; reflexivity.
  simpl. rewrite orb_false_r.
  repeat (apply orb_true_iff in Hd; destruct Hd as [Hd|Hd]);
    apply Ascii.eqb_eq in Hd; subst d; apply Ascii.eqb_neq; congruence.
Qed.

Lemma escape_all_clean (s : string) (d : ascii) :
  dangerous d = true -> Str.contains d (escape_all s) = false.
Proof.
  intros Hd. induction s as [|c s IH]; simpl; [reflexivity|].
  now rewrite contains_app, IH, escape_char_clean.
Qed.

Lemma sanitizeHtml_app (s t : string) :
  sanitizeHtml (String.append s t) = String.append (sanitizeHtml s) (sanitizeHtml t).
Proof. unfold sanitizeHtml, Str.replace_char. now rewrite !replace_class_app. Qed.

Lemma replace_char_cons (p c : ascii) (rep s : string) :
  Str.replace_char p rep (String c s)
  = if Ascii.eqb c p then String.append rep (Str.replace_char p rep s)
    else String c (Str.replace_char p rep s).
Proof. unfold Str.replace_char. cbn [Str.replace_class]. now rewrite Ascii.eqb_sym. Qed.

Lemma replace_char_nil (p : ascii) (rep : string) :
  Str.replace_char p rep EmptyString = EmptyString.
Proof. reflexivity. Qed.

Lemma sanitizeHtml_char (c : ascii) :
  sanitizeHtml (String c EmptyString) = escape_char c.
Proof.
  unfold sanitizeHtml, escape_char.
  rewrite replace_char_cons, replace_char_nil.
  destruct (Ascii.eqb_spec c Str.lt) as [->|Hlt]; [reflexivity|].
  rewrite replace_char_cons, replace_char_nil.
  destruct (Ascii.eqb_spec c Str.gt) as [->|Hgt]; [reflexivity|].
  rewrite replace_char_cons, replace_char_nil.
  destruct (Ascii.eqb_spec c Str.quot) as [->|Hq]; [reflexivity|].
  rewrite replace_char_cons, replace_char_nil.
  destruct (Ascii.eqb_spec c Str.apos) as [->|Ha]; reflexivity.
Qed.

(** The four replacements in a row do what one pass over the text
    does: no replacement text holds a character a later pass looks
    for. *)
Lemma sanitizeHtml_escape_all (s : string) : sanitizeHtml s = escape_all s.
Proof.
  induction s as [|c s IH]; [reflexivity|].
  change (String c s) with (String.append (String c EmptyString) s).
  rewrite sanitizeHtml_app, sanitizeHtml_char, IH. reflexivity.
Qed.

Lemma sanitizeHtml_fixes_clean (s : string) :
  (forall d, dangerous d = true -> Str.contains d s = false) ->
  sanitizeHtml s = s.
Proof.
  intros H. unfold sanitizeHtml, Str.replace_char.
  rewrite (replace_class_clean (Ascii.eqb Str.lt)).
  2:{ intros c Hc. apply Ascii.eqb_eq in Hc. subst c. now apply H. }
  rewrite (replace_class_clean (Ascii.eqb Str.gt)).
  2:{ intros c Hc. apply Ascii.eqb_eq in Hc. subst c. now apply H. }
  rewrite (replace_class_clean (Ascii.eqb Str.quot)).
  2:{ intros c Hc. apply Ascii.eqb_eq in Hc. subst c. now apply H. }
  rewrite (replace_class_clean (Ascii.eqb Str.apos)).
  2:{ intros c Hc. apply Ascii.eqb_eq in Hc. subst c. now apply H. }
  reflexivity.
Qed.

Lemma sanitizeHtml_idempotent (s : string) :
  sanitizeHtml (sanitizeHtml s) = sanitizeHtml s.
Proof.
  apply sanitizeHtml_fixes_clean. intros d Hd.
  rewrite sanitizeHtml_escape_all. now apply escape_all_clean.
Qed.

End SanitizerFacts.

(** C7. For every string [s], [sanitizeInput s] is [s] without its
    occurrences of the four characters (the other characters are kept,
    in order: it is the filtered sequence, a subsequence of [s]); the
    result holds none of the four characters; and sanitizing twice is
    sanitizing once.  The function is total by construction. *)
Theorem sanitizeInput_spec (s : string) :
  Str.chars (sanitizeInput s) = List.filter (fun c => negb (dangerous c)) (Str.chars s)
  /\ sublist (Str.chars (sanitizeInput s)) (Str.chars s)
  /\ (Str.contains Str.lt (sanitizeInput s) = false
      /\ Str.contains Str.gt (sanitizeInput s) = false
      /\ Str.contains Str.apos (sanitizeInput s) = false
      /\ Str.contains Str.quot (sanitizeInput s) = false)
  /\ sanitizeInput (sanitizeInput s) = sanitizeInput s.
Proof.
  split; [apply sanitizeInput_chars|].
  split; [rewrite sanitizeInput_chars; apply filter_sublist|].
  split; [repeat split; now apply sanitizeInput_clean|].
  unfold sanitizeInput at 1. apply replace_class_clean.
  intros c Hc. now apply sanitizeInput_clean.
Qed.

(** C8, as the specification states it, fails in its last part: no
    string is changed by a second application of [sanitizeHtml]. *)
Lemma sanitizeHtml_not_idempotent_refuted :
  ~ (exists s : string, sanitizeHtml (sanitizeHtml s) <> sanitizeHtml s).
Proof. intros [s H]. apply H, sanitizeHtml_idempotent. Qed.

(** C8, amended.  For every string [s], [sanitizeHtml s] replaces each
    opening bracket, closing bracket, double quote and apostrophe by its
    entity and keeps every other character; the result holds none of the
    four characters; and, the ampersand not being escaped, a second
    application changes nothing: [sanitizeHtml] is idempotent. *)
Theorem sanitizeHtml_spec (s : string) :
  sanitizeHtml s = escape_all s
  /\ (escape_char Str.lt = "&lt;" /\ escape_char Str.gt = "&gt;"
      /\ escape_char Str.quot = "&quot;" /\ escape_char Str.apos = "&#039;"
      /\ forall c, dangerous c = false -> escape_char c = String c EmptyString)
  /\ (Str.contains Str.lt (sanitizeHtml s) = false
      /\ Str.contains Str.gt (sanitizeHtml s) = false
      /\ Str.contains Str.quot (sanitizeHtml s) = false
      /\ Str.contains Str.apos (sanitizeHtml s) = false)
  /\ sanitizeHtml (sanitizeHtml s) = sanitizeHtml s.
Proof.
  split; [apply sanitizeHtml_escape_all|].
  split.
  { repeat split; try reflexivity.
    intros c Hc. unfold dangerous in Hc. unfold escape_char.
    apply orb_false_iff in Hc as [Hc Hq]. apply orb_false_iff in Hc as [Hc Ha].
    apply orb_false_iff in Hc as [Hl Hg]. now rewrite Hl, Hg, Hq, Ha. }
  split; [|apply sanitizeHtml_idempotent].
  rewrite sanitizeHtml_escape_all. repeat split; now apply escape_all_clean.
Qed.

(** ** Rate limiter *)

Section RateLimitFacts.

Import RateLimit.

Variable cfg : Config.

Local Abbreviation kept := (RateLimit.kept cfg).
Local Abbreviation limiter_inv := (RateLimit.limiter_inv cfg).

Lemma checkRateLimit_denied now clientId (m : gmap string (list Z)) :
  MAX_REQUESTS cfg <= Z.of_nat (length (kept now clientId m)) ->
  checkRateLimit cfg now clientId m = (false, m).
Proof.
  intros H. unfold checkRateLimit, kept, in_window in *.
  destruct (Z.geb_spec (Z.of_nat (length
    (List.filter (fun timestamp => now - timestamp <? WINDOW_MS cfg) (stored clientId m))))
    (MAX_REQUESTS cfg)); [reflexivity|lia].
Qed.

Lemma checkRateLimit_allowed now clientId (m : gmap string (list Z)) :
  Z.of_nat (length (kept now clientId m)) < MAX_REQUESTS cfg ->
  checkRateLimit cfg now clientId m
  = (true, <[clientId := kept now clientId m ++ [now]]> m).
Proof.
  intros H. unfold checkRateLimit, kept, in_window in *.
  destruct (Z.geb_spec (Z.of_nat (length
    (List.filter (fun timestamp => now - timestamp <? WINDOW_MS cfg) (stored clientId m))))
    (MAX_REQUESTS cfg)); [lia|reflexivity].
Qed.

Lemma stored_insert clientId l (m : gmap string (list Z)) :
  stored clientId (<[clientId := l]> m) = l.
Proof. unfold stored. now rewrite lookup_insert_eq. Qed.

Lemma checkRateLimit_other now c c' (m : gmap string (list Z)) :
  c <> c' -> snd (checkRateLimit cfg now c m) !! c' = m !! c'.
Proof.
  intros Hne. unfold checkRateLimit.
  destruct (_ >=? _); simpl; [reflexivity|]. now rewrite lookup_insert_ne.
Qed.

Lemma check_all_snoc calls now clientId (m : gmap string (list Z)) :
  snd (check_all cfg (calls ++ [(now, clientId)]) m)
  = snd (checkRateLimit cfg now clientId (snd (check_all cfg calls m))).
Proof.
  revert m. induction calls as [|[t c] calls IH]; intros m; simpl.
  - destruct (checkRateLimit cfg now clientId m); reflexivity.
  - destruct (checkRateLimit cfg t c m) as [a m'].
    specialize (IH m').
    destruct (check_all cfg (calls ++ [(now, clientId)]) m') as [r1 f1].
    destruct (check_all cfg calls m') as [r2 f2]. exact IH.
Qed.

(** A filter that keeps as many elements as there are keeps them all. *)
Lemma filter_all_kept {A} (p : A -> bool) (l : list A) :
  (length l <= length (List.filter p l))%nat -> Forall (fun x => p x = true) l.
Proof.
  induction l as [|x l IH]; simpl; intros H; [constructor|].
  pose proof (List.filter_length_le p l) as Hle.
  destruct (p x) eqn:E; simpl in H; [|lia].
  constructor; [exact E | apply IH; lia].
Qed.

Lemma filter_StronglySorted {A} (R : A -> A -> Prop) (p : A -> bool) (l : list A) :
  StronglySorted R l -> StronglySorted R (List.filter p l).
Proof.
  induction 1 as [|x l Hs IH Hx]; simpl; [constructor|].
  destruct (p x); [|exact IH].
  constructor; [exact IH|].
  rewrite List.Forall_forall in *. intros y Hy.
  apply List.filter_In in Hy as [Hy _]. now apply Hx.
Qed.

Lemma StronglySorted_snoc (l : list Z) (x : Z) :
  StronglySorted Z.le l -> Forall (fun t => t <= x) l ->
  StronglySorted Z.le (l ++ [x]).
Proof.
  induction 1 as [|y l Hs IH Hy]; simpl; intros Hb.
  - repeat constructor.
  - inversion Hb; subst. constructor; [now apply IH|].
    apply Forall_app. split; [exact Hy | now constructor].
Qed.

Lemma limiter_inv_mono T T' m : T <= T' -> limiter_inv T m -> limiter_inv T' m.
Proof.
  intros HT H c l Hl. destruct (H c l Hl) as (Hs & Hb & Hn).
  repeat split; try assumption.
  eapply List.Forall_impl; [|exact Hb]. simpl. intros; lia.
Qed.

Lemma limiter_inv_step T now clientId m :
  T <= now -> limiter_inv T m ->
  limiter_inv now (snd (checkRateLimit cfg now clientId m)).
Proof.
  intros HT H.
  destruct (Z_lt_le_dec (Z.of_nat (length (kept now clientId m))) (MAX_REQUESTS cfg)) as [Hlt|Hge].
  - rewrite checkRateLimit_allowed by exact Hlt. simpl.
    intros c l Hl. destruct (decide (clientId = c)) as [->|Hne].
    + rewrite lookup_insert_eq in Hl. injection Hl as <-.
      assert (StronglySorted Z.le (stored c m) /\ Forall (fun t => t <= T) (stored c m))
        as [Hs Hb].
      { unfold stored. destruct (m !! c) as [l0|] eqn:E; simpl.
        - destruct (H c l0 E) as (? & ? & ?). now split.
        - split; constructor. }
      assert (Forall (fun t => t <= now) (kept now c m)) as Hk.
      { unfold kept. rewrite List.Forall_forall in *. intros t Ht.
        apply List.filter_In in Ht as [Ht _]. specialize (Hb t Ht). simpl in Hb. lia. }
      repeat split.
      * apply StronglySorted_snoc; [|exact Hk].
        unfold kept. now apply filter_StronglySorted.
      * apply Forall_app. split; [exact Hk|]. constructor; [lia|constructor].
      * rewrite length_app. simpl. lia.
    + rewrite lookup_insert_ne in Hl by exact Hne.
      exact (limiter_inv_mono T now m HT H c l Hl).
  - rewrite checkRateLimit_denied by exact Hge. simpl.
    now apply (limiter_inv_mono T now m HT H).
Qed.

Lemma limiter_inv_run calls : forall T T' m,
  T <= T' -> limiter_inv T m ->
  StronglySorted Z.le (map fst calls) ->
  Forall (fun t => T <= t <= T') (map fst calls) ->
  limiter_inv T' (snd (check_all cfg calls m)).
Proof.
  induction calls as [|[t c] calls IH]; intros T T' m HT H Hs Hb; simpl.
  - now apply (limiter_inv_mono T T').
  - simpl in Hs, Hb. inversion Hs as [|? ? Hs' Hle]; subst.
    inversion Hb as [|? ? Ht Hb']; subst.
    pose proof (limiter_inv_step T t c m (proj1 Ht) H) as Hstep.
    destruct (checkRateLimit cfg t c m) as [a m']. simpl in Hstep.
    specialize (IH t T' m' (proj2 Ht) Hstep Hs').
    destruct (check_all cfg calls m') as [r f]. simpl in *. apply IH.
    rewrite List.Forall_forall in *. intros u Hu.
    specialize (Hle u Hu). specialize (Hb' u Hu). simpl in *. lia.
Qed.

Lemma limiter_inv_empty T : limiter_inv T ∅.
Proof. intros c l Hl. rewrite lookup_empty in Hl. discriminate. Qed.

(** After any calls made with a clock that never goes back, the
    invariant holds at the time of the last one. *)
Lemma limiter_inv_reachable calls now :
  StronglySorted Z.le (map fst calls) ->
  Forall (fun t => t <= now) (map fst calls) ->
  limiter_inv now (map_after cfg calls).
Proof.
  intros Hs Hb. unfold map_after.
  destruct calls as [|[t c] calls]; [apply limiter_inv_empty|].
  apply (limiter_inv_run _ t now); try assumption.
  - inversion Hb; subst. assumption.
  - apply limiter_inv_empty.
  - simpl in *. inversion Hs as [|? ? _ Hle]; subst. inversion Hb as [|? ? Ht Hb']; subst.
    constructor; [lia|].
    rewrite List.Forall_forall in *. intros u Hu.
    specialize (Hle u Hu). specialize (Hb' u Hu). simpl in *. lia.
Qed.

(** The state of the checked client after one call from a state that
    satisfies the invariant. *)
Lemma checkRateLimit_window T now clientId m :
  0 <= WINDOW_MS cfg -> T <= now -> limiter_inv T m ->
  let l := stored clientId (snd (checkRateLimit cfg now clientId m)) in
  Forall (fun t => now - WINDOW_MS cfg <= t <= now) l /\ Sorted Z.le l.
Proof.
  intros HW HT H l.
  pose proof (limiter_inv_step T now clientId m HT H) as Hinv.
  assert (Sorted Z.le l /\ Forall (fun t => t <= now) l) as [Hsorted Hle].
  { subst l. unfold stored.
    destruct (snd (checkRateLimit cfg now clientId m) !! clientId) as [l0|] eqn:E; simpl.
    - destruct (Hinv clientId l0 E) as (Hs & Hb & _).
      split; [now apply StronglySorted_Sorted | exact Hb].
    - split; constructor. }
  split; [|exact Hsorted].
  assert (Forall (fun t => now - WINDOW_MS cfg <= t) l) as Hwin.
  { subst l.
    destruct (Z_lt_le_dec (Z.of_nat (length (kept now clientId m))) (MAX_REQUESTS cfg)) as [Hlt|Hge].
    - rewrite checkRateLimit_allowed by exact Hlt. simpl. rewrite stored_insert.
      apply Forall_app. split.
      + unfold kept. rewrite List.Forall_forall. intros t Ht.
        apply List.filter_In in Ht as [_ Ht]. apply Z.ltb_lt in Ht. lia.
      + constructor; [lia|constructor].
    - rewrite checkRateLimit_denied by exact Hge. simpl.
      unfold stored in *. destruct (m !! clientId) as [l0|] eqn:E; simpl; [|constructor].
      destruct (H clientId l0 E) as (_ & _ & Hn).
      unfold kept, stored in Hge. rewrite E in Hge. simpl in Hge.
      assert (Forall (fun x => (now - x <? WINDOW_MS cfg) = true) l0) as Hall.
      { apply filter_all_kept. lia. }
      eapply List.Forall_impl; [|exact Hall]. simpl.
      intros t Ht. apply Z.ltb_lt in Ht. lia. }
  rewrite List.Forall_forall in *. intros t Ht.
  specialize (Hwin t Ht). specialize (Hle t Ht). simpl in *. lia.
Qed.

End RateLimitFacts.

Ltac ltb_true :=
  match goal with
  | |- context [?a <? ?b] => rewrite (proj2 (Z.ltb_lt a b)) by lia
  end.

Ltac ltb_false :=
  match goal with
  | |- context [?a <? ?b] => rewrite (proj2 (Z.ltb_ge a b)) by lia
  end.

Lemma StronglySorted_snoc_inv (l : list Z) (x : Z) :
  StronglySorted Z.le (l ++ [x]) ->
  StronglySorted Z.le l /\ Forall (fun t => t <= x) l.
Proof.
  induction l as [|y l IH]; simpl; intros H; [split; constructor|].
  inversion H as [|? ? Hs Hy]; subst.
  destruct (IH Hs) as [Hl Hb]. apply Forall_app in Hy as [Hy Hx].
  split; constructor; try assumption. now inversion Hx.
Qed.

(** The scenario of the specification, three requests per 1000 ms, for
    any client not yet known to the limiter and any five call times. *)
Lemma checkRateLimit_scenario cfg clientId (m : gmap string (list Z)) t1 t2 t3 t4 t5 :
  MAX_REQUESTS cfg = 3 -> WINDOW_MS cfg = 1000 ->
  RateLimit.stored clientId m = [] ->
  t1 <= t2 <= t3 -> t3 <= t4 -> t4 - t1 < 1000 -> 1000 <= t5 - t1 ->
  fst (RateLimit.check_all cfg
         [(t1, clientId); (t2, clientId); (t3, clientId); (t4, clientId); (t5, clientId)] m)
  = [true; true; true; false; true].
Proof.
  intros Hmax Hwin Hfresh H123 H34 H41 H51.
  unfold RateLimit.check_all, RateLimit.checkRateLimit, RateLimit.in_window.
  rewrite Hmax, Hwin, Hfresh. simpl.
  rewrite stored_insert. simpl. ltb_true. simpl.
  rewrite stored_insert. simpl. repeat ltb_true. simpl.
  rewrite stored_insert. simpl. repeat ltb_true. simpl.
  rewrite stored_insert. simpl. ltb_false.
  destruct (t5 - t2 <? 1000); destruct (t5 - t3 <? 1000); reflexivity.
Qed.

(** C1. One call of [checkRateLimit], for every client id, prior map and
    clock reading [now]: with [kept] the stored timestamps that satisfy
    [now - timestamp < windowMs], the call answers false and leaves the
    map as it was (so [now] is not recorded) when [kept] has at least
    [maxRequests] elements, and otherwise answers true and stores
    [kept] followed by [now] for the client.  With [maxRequests = 3] and
    [windowMs = 1000], for a client without stored timestamps, four
    calls within less than 1000 ms answer true, true, true, false, and a
    call 1000 ms or more after the first answers true. *)
Theorem checkRateLimit_spec (cfg : Config) (clientId : string)
    (m : gmap string (list Z)) (now : Z) (t1 t2 t3 t4 t5 : Z) :
  let kept :=
    List.filter (fun timestamp => now - timestamp <? WINDOW_MS cfg)
      (RateLimit.stored clientId m) in
  (MAX_REQUESTS cfg <= Z.of_nat (length kept) ->
     RateLimit.checkRateLimit cfg now clientId m = (false, m))
  /\ (Z.of_nat (length kept) < MAX_REQUESTS cfg ->
     RateLimit.checkRateLimit cfg now clientId m
     = (true, <[clientId := kept ++ [now]]> m)
     /\ RateLimit.stored clientId (snd (RateLimit.checkRateLimit cfg now clientId m))
        = kept ++ [now])
  /\ (MAX_REQUESTS cfg = 3 -> WINDOW_MS cfg = 1000 ->
      RateLimit.stored clientId m = [] ->
      t1 <= t2 <= t3 -> t3 <= t4 -> t4 - t1 < 1000 -> 1000 <= t5 - t1 ->
      fst (RateLimit.check_all cfg
             [(t1, clientId); (t2, clientId); (t3, clientId); (t4, clientId);
              (t5, clientId)] m)
      = [true; true; true; false; true]).
Proof.
  intros kept. split; [|split].
  - apply checkRateLimit_denied.
  - intros H. rewrite (checkRateLimit_allowed cfg now clientId m H).
    split; [reflexivity|]. simpl. apply stored_insert.
  - apply checkRateLimit_scenario.
Qed.

Lemma checkRateLimit_spec_witness :
  fst (RateLimit.check_all config_3_per_1000
         [(0, "client_1"); (400, "client_1"); (800, "client_1"); (999, "client_1");
          (1000, "client_1")] ∅)
  = [true; true; true; false; true].
Proof.
  apply (proj2 (proj2 (checkRateLimit_spec config_3_per_1000 "client_1" ∅ 0 0 400 800 999 1000)));
    try reflexivity; lia.
Defined.

(** C2, as the specification states it (after every call, whatever the
    clock and the window), fails: a call at [Date.now() = 1000] and then
    one at 500, the clock having been set back, store 1000 and then 500,
    which is not ascending and holds a timestamp after [now]. *)
Lemma stored_in_window_refuted :
  ~ stored_in_window_as_stated config_3_per_1000 [(1000, "a")] 500 "a".
Proof.
  unfold stored_in_window_as_stated.
  assert (RateLimit.stored "a"
            (RateLimit.map_after config_3_per_1000 ([(1000, "a")] ++ [(500, "a")]))
          = [1000; 500]) as -> by (vm_compute; reflexivity).
  intros [H _]. inversion H as [|? ? Hfirst _]; subst. lia.
Qed.

(** The same with a negative window and one call: the timestamp stored
    is the time of the call, which the empty interval cannot hold. *)
Example stored_in_window_negative_window :
  ~ stored_in_window_as_stated config_negative_window [] 100 "a".
Proof.
  unfold stored_in_window_as_stated.
  assert (RateLimit.stored "a"
            (RateLimit.map_after config_negative_window ([] ++ [(100, "a")]))
          = [100]) as -> by (vm_compute; reflexivity).
  intros [H _]. inversion H as [|? ? Hfirst _]; subst. simpl in Hfirst. lia.
Qed.

(** C2, amended.  After every call of [checkRateLimit], allowed or
    denied, made at time [now] by a process whose clock readings have
    not gone back since it started and whose window is not negative, the
    sequence stored for the checked client holds only timestamps in
    [now - windowMs, now] and is ascending. *)
Theorem checkRateLimit_stored_in_window (cfg : Config) (calls : list (Z * string))
    (now : Z) (clientId : string) :
  0 <= WINDOW_MS cfg ->
  RateLimit.clock_monotone (calls ++ [(now, clientId)]) ->
  let l := RateLimit.stored clientId
             (RateLimit.map_after cfg (calls ++ [(now, clientId)])) in
  Forall (fun t => now - WINDOW_MS cfg <= t <= now) l /\ Sorted Z.le l.
Proof.
  intros HW Hmono. unfold RateLimit.map_after. rewrite check_all_snoc.
  unfold RateLimit.clock_monotone in Hmono. rewrite map_app in Hmono. simpl in Hmono.
  apply Sorted_StronglySorted in Hmono; [|intros x y z; apply Z.le_trans].
  apply StronglySorted_snoc_inv in Hmono as [Hs Hb].
  apply (checkRateLimit_window cfg now now clientId); [exact HW | lia |].
  now apply limiter_inv_reachable.
Qed.

Lemma checkRateLimit_stored_in_window_witness :
  let calls := [(0, "a"); (400, "a"); (500, "b"); (800, "a"); (900, "a")] in
  let l := RateLimit.stored "a"
             (RateLimit.map_after config_3_per_1000 (calls ++ [(1500, "a")])) in
  Forall (fun t => 1500 - 1000 <= t <= 1500) l /\ Sorted Z.le l.
Proof.
  apply (checkRateLimit_stored_in_window config_3_per_1000
           [(0, "a"); (400, "a"); (500, "b"); (800, "a"); (900, "a")] 1500 "a").
  - simpl. lia.
  - unfold RateLimit.clock_monotone. simpl.
    repeat (constructor; [|try (constructor; lia)]). constructor.
Defined.

(** C10. A call of [checkRateLimit] for a client [c] leaves the entry
    of every other client [c'] as it was, whatever the map, the time and
    the answer. *)
Theorem checkRateLimit_frame (cfg : Config) (now : Z) (c c' : string)
    (m : gmap string (list Z)) :
  c <> c' ->
  snd (RateLimit.checkRateLimit cfg now c m) !! c' = m !! c'
  /\ RateLimit.stored c' (snd (RateLimit.checkRateLimit cfg now c m))
     = RateLimit.stored c' m.
Proof.
  intros Hne. pose proof (checkRateLimit_other cfg now c c' m Hne) as H.
  split; [exact H|]. unfold RateLimit.stored. now rewrite H.
Qed.

Lemma checkRateLimit_frame_witness :
  snd (RateLimit.checkRateLimit config_3_per_1000 700 "a" {["b" := [100; 200]]}) !! "b"
  = ({["b" := [100; 200]]} : gmap string (list Z)) !! "b"
  /\ RateLimit.stored "b"
       (snd (RateLimit.checkRateLimit config_3_per_1000 700 "a" {["b" := [100; 200]]}))
     = RateLimit.stored "b" {["b" := [100; 200]]}.
Proof.
  apply (checkRateLimit_frame config_3_per_1000 700 "a" "b" {["b" := [100; 200]]}).
  intros H. discriminate H.
Defined.

(** ** Resilient fetch *)

Section FetchFacts.

Variable cfg : Config.
Variable clientId : string.
Variable network : nat -> string -> Reply.

Local Abbreviation retrying := (fetchWithRetry cfg clientId network).
Local Abbreviation attempting := (attempt cfg network).
Local Abbreviation allows := (limiter_allows cfg clientId).
Local Abbreviation after_check := (checked cfg clientId).
Local Abbreviation after_delay := (delayed cfg).
Local Abbreviation outcome_of := (attempt_outcome cfg).
Local Abbreviation elapsed_of := (attempt_elapsed cfg).
Local Abbreviation used := (slots_used clientId).

Lemma set_requestCounts_same (w : World) : set_requestCounts (requestCounts w) w = w.
Proof. now destruct w. Qed.

(** The recursive equation of the source: the model of [fetchWithRetry]
    is a solution of it, whatever the retry count. *)
Lemma fetchWithRetry_unfold (url : string) (retryCount : Z) (w : World) :
  retrying url retryCount w
  = (do allowed <- checkRateLimitA cfg clientId;
     if negb allowed then
       run modify (set_rateLimitExceeded true);
       throw RateLimitExceeded
     else
       try_catch (attempting url)
         (fun err =>
            if retryCount <? MAX_RETRIES cfg then
              run delay (RETRY_DELAY_MS cfg);
              retrying url (retryCount + 1)
            else throw err))%async w.
Proof.
  unfold fetchWithRetry.
  destruct (Z.ltb_spec retryCount (MAX_RETRIES cfg)) as [Hlt|Hge].
  - replace (Z.to_nat (MAX_RETRIES cfg - retryCount))
      with (S (Z.to_nat (MAX_RETRIES cfg - (retryCount + 1)))) by lia.
    cbn [fetchWithRetry_from].
    rewrite (proj2 (Z.ltb_lt retryCount (MAX_RETRIES cfg)) Hlt). reflexivity.
  - replace (Z.to_nat (MAX_RETRIES cfg - retryCount)) with O by lia.
    cbn [fetchWithRetry_from].
    rewrite (proj2 (Z.ltb_ge retryCount (MAX_RETRIES cfg)) Hge). reflexivity.
Qed.

Lemma checkRateLimitA_run (w : World) :
  checkRateLimitA cfg clientId w = (Return (allows w), after_check w).
Proof.
  unfold checkRateLimitA, limiter_allows, checked.
  now destruct (RateLimit.checkRateLimit cfg (clock w) clientId (requestCounts w)).
Qed.

(** A denied check changes nothing. *)
Lemma checked_denied (w : World) : allows w = false -> after_check w = w.
Proof.
  unfold limiter_allows, checked, RateLimit.checkRateLimit.
  destruct (_ >=? _); simpl; [intros _; apply set_requestCounts_same | discriminate].
Qed.

Lemma checked_trace (w : World) : trace (after_check w) = trace w.
Proof. reflexivity. Qed.

(** One attempt: one network request, ended as [attempt_outcome] says. *)
Lemma attempt_run (url : string) (w : World) :
  let reply := network (fetches (trace w)) url in
  attempting url w
  = (outcome_of reply, advance (elapsed_of reply) (log (EvFetch url) w)).
Proof.
  unfold attempt, bind, fetch, attempt_outcome,
    attempt_elapsed, validate. simpl.
  destruct (TIMEOUT_MS cfg <=? latency (network (fetches (trace w)) url)); [reflexivity|].
  destruct (settled (network (fetches (trace w)) url)) as [|r]; [reflexivity|].
  destruct (negb (is_json r)); [reflexivity|].
  destruct (negb (ok r)); reflexivity.
Qed.

Lemma fetches_snoc_fetch tr url : fetches (tr ++ [EvFetch url]) = S (fetches tr).
Proof. unfold fetches. rewrite List.filter_app, length_app. simpl. lia. Qed.

Lemma fetches_snoc_delay tr ms : fetches (tr ++ [EvDelay ms]) = fetches tr.
Proof. unfold fetches. rewrite List.filter_app, length_app. simpl. lia. Qed.

Lemma delays_snoc_fetch tr url : delays (tr ++ [EvFetch url]) = delays tr.
Proof. unfold delays. rewrite List.filter_app, length_app. simpl. lia. Qed.

Lemma delays_snoc_delay tr ms : delays (tr ++ [EvDelay ms]) = S (delays tr).
Proof. unfold delays. rewrite List.filter_app, length_app. simpl. lia. Qed.

(** A call the limiter denies. *)
Lemma fetchWithRetry_denied_run (url : string) (retryCount : Z) (w : World) :
  allows w = false ->
  retrying url retryCount w
  = (Throw RateLimitExceeded, set_rateLimitExceeded true w).
Proof.
  intros Hd. rewrite fetchWithRetry_unfold. unfold bind at 1.
  rewrite checkRateLimitA_run, Hd, (checked_denied w Hd). reflexivity.
Qed.

(** A call the limiter allows, by how its attempt ends. *)
Lemma fetchWithRetry_allowed_run (url : string) (retryCount : Z) (w : World) :
  allows w = true ->
  retrying url retryCount w
  = match attempting url (after_check w) with
    | (Return response, w1) => (Return response, w1)
    | (Throw err, w1) =>
        if retryCount <? MAX_RETRIES cfg
        then retrying url (retryCount + 1) (after_delay w1)
        else (Throw err, w1)
    end.
Proof.
  intros Ha. rewrite fetchWithRetry_unfold. unfold bind at 1.
  rewrite checkRateLimitA_run, Ha. simpl. unfold try_catch.
  destruct (attempting url (after_check w)) as [[response|err] w1]; [reflexivity|].
  destruct (retryCount <? MAX_RETRIES cfg); reflexivity.
Qed.

(** An attempt never ends with the rate-limit error. *)
Lemma attempt_outcome_not_rate_limit (reply : Reply) :
  outcome_of reply <> Throw RateLimitExceeded.
Proof.
  unfold attempt_outcome.
  destruct (TIMEOUT_MS cfg <=? latency reply); [discriminate|].
  destruct (settled reply) as [|r]; [discriminate|].
  destruct (negb (is_json r)); [discriminate|].
  destruct (negb (ok r)); discriminate.
Qed.

(** The shape of every run: [k] retry delays, at most as many as
    retries are left; the run ends either with a denial, after [k]
    network requests, or with the end of an attempt, after [k + 1]. *)
Lemma fetchWithRetry_shape (n : nat) : forall (url : string) (retryCount : Z) (w : World),
  Z.to_nat (MAX_RETRIES cfg - retryCount) = n ->
  exists k : nat,
    (k <= n)%nat
    /\ delays (trace (snd (retrying url retryCount w))) = (delays (trace w) + k)%nat
    /\ ((fst (retrying url retryCount w) = Throw RateLimitExceeded
         /\ fetches (trace (snd (retrying url retryCount w))) = (fetches (trace w) + k)%nat)
        \/ (fst (retrying url retryCount w) <> Throw RateLimitExceeded
            /\ fetches (trace (snd (retrying url retryCount w)))
               = (fetches (trace w) + k + 1)%nat)).
Proof.
  induction n as [|n IH]; intros url retryCount w Hn.
  - destruct (allows w) eqn:Ha.
    + rewrite (fetchWithRetry_allowed_run url retryCount w Ha), attempt_run.
      pose proof (attempt_outcome_not_rate_limit
                    (network (fetches (trace (after_check w))) url)) as Hne.
      destruct (outcome_of (network (fetches (trace (after_check w))) url)) as [r|e].
      * exists O. simpl. rewrite delays_snoc_fetch, fetches_snoc_fetch.
        split; [lia|]. split; [lia|]. right. split; [discriminate|lia].
      * rewrite (proj2 (Z.ltb_ge retryCount (MAX_RETRIES cfg))) by lia.
        exists O. simpl. rewrite delays_snoc_fetch, fetches_snoc_fetch.
        split; [lia|]. split; [lia|]. right. split; [exact Hne|lia].
    + rewrite (fetchWithRetry_denied_run url retryCount w Ha).
      exists O. simpl. split; [lia|]. split; [lia|]. left. split; [reflexivity|lia].
  - destruct (allows w) eqn:Ha.
    + rewrite (fetchWithRetry_allowed_run url retryCount w Ha), attempt_run.
      pose proof (attempt_outcome_not_rate_limit
                    (network (fetches (trace (after_check w))) url)) as Hne.
      destruct (outcome_of (network (fetches (trace (after_check w))) url)) as [r|e].
      * exists O. simpl. rewrite delays_snoc_fetch, fetches_snoc_fetch.
        split; [lia|]. split; [lia|]. right. split; [discriminate|lia].
      * rewrite (proj2 (Z.ltb_lt retryCount (MAX_RETRIES cfg))) by lia.
        match goal with
        | |- context [retrying url (retryCount + 1) ?w1] =>
            destruct (IH url (retryCount + 1) w1 ltac:(lia)) as (k & Hk & Hd & Hf);
            assert (delays (trace w1) = S (delays (trace w))) as Hd1
              by (simpl; now rewrite delays_snoc_delay, delays_snoc_fetch);
            assert (fetches (trace w1) = S (fetches (trace w))) as Hf1
              by (simpl; now rewrite fetches_snoc_delay, fetches_snoc_fetch)
        end.
        exists (S k). rewrite Hd1 in Hd. rewrite Hf1 in Hf.
        split; [lia|]. split; [lia|].
        destruct Hf as [[Hr Hf]|[Hr Hf]]; [left|right]; (split; [exact Hr|lia]).
    + rewrite (fetchWithRetry_denied_run url retryCount w Ha).
      exists O. simpl. split; [lia|]. split; [lia|]. left. split; [reflexivity|lia].
Qed.

(** With a free slot the limiter lets the call through and uses one
    slot at most. *)
Lemma allows_of_free_slot (w : World) :
  used w < MAX_REQUESTS cfg ->
  allows w = true /\ used (after_check w) <= used w + 1.
Proof.
  unfold slots_used, limiter_allows, checked, RateLimit.checkRateLimit.
  intros H.
  pose proof (List.filter_length_le (RateLimit.in_window (WINDOW_MS cfg) (clock w))
                (RateLimit.stored clientId (requestCounts w))) as Hle.
  destruct (Z.geb_spec (Z.of_nat (length (List.filter
    (RateLimit.in_window (WINDOW_MS cfg) (clock w))
    (RateLimit.stored clientId (requestCounts w))))) (MAX_REQUESTS cfg)) as [Hge|Hlt];
    [lia|].
  simpl. split; [reflexivity|]. rewrite stored_insert, length_app. simpl. lia.
Qed.

(** A run whose limiter has room for every attempt and whose first [k]
    attempts fail, [k] being the retries left: the result is how the
    last allowed attempt ends. *)
Lemma fetchWithRetry_run (url : string) (k : nat) : forall (retryCount : Z) (w : World),
  Z.of_nat k = MAX_RETRIES cfg - retryCount ->
  used w + Z.of_nat k + 1 <= MAX_REQUESTS cfg ->
  (forall i, (i < k)%nat ->
     exists e, outcome_of (network (fetches (trace w) + i)%nat url) = Throw e) ->
  fst (retrying url retryCount w)
  = outcome_of (network (fetches (trace w) + k)%nat url)
  /\ fetches (trace (snd (retrying url retryCount w))) = (fetches (trace w) + k + 1)%nat
  /\ delays (trace (snd (retrying url retryCount w))) = (delays (trace w) + k)%nat.
Proof.
  induction k as [|k IH]; intros retryCount w Hk Hslots Hfail.
  - destruct (allows_of_free_slot w ltac:(lia)) as [Ha _].
    rewrite (fetchWithRetry_allowed_run url retryCount w Ha), attempt_run.
    rewrite (proj2 (Z.ltb_ge retryCount (MAX_RETRIES cfg))) by lia.
    rewrite checked_trace, Nat.add_0_r.
    destruct (outcome_of (network (fetches (trace w)) url)) as [r|e]; simpl;
      rewrite delays_snoc_fetch, fetches_snoc_fetch; repeat split; lia.
  - destruct (allows_of_free_slot w ltac:(lia)) as [Ha Hused].
    rewrite (fetchWithRetry_allowed_run url retryCount w Ha), attempt_run.
    rewrite (proj2 (Z.ltb_lt retryCount (MAX_RETRIES cfg))) by lia.
    rewrite checked_trace.
    destruct (Hfail O ltac:(lia)) as [e He]. rewrite Nat.add_0_r in He. rewrite He.
    match goal with
    | |- context [retrying url (retryCount + 1) ?w1] =>
        assert (delays (trace w1) = S (delays (trace w))) as Hd1
          by (simpl; now rewrite delays_snoc_delay, delays_snoc_fetch);
        assert (fetches (trace w1) = S (fetches (trace w))) as Hf1
          by (simpl; now rewrite fetches_snoc_delay, fetches_snoc_fetch);
        assert (used w1 = used (after_check w)) as Hu1 by reflexivity;
        destruct (IH (retryCount + 1) w1 ltac:(lia) ltac:(lia)) as (Hr & Hf & Hd)
    end.
    { intros i Hi. rewrite Hf1. specialize (Hfail (S i) ltac:(lia)).
      now replace (S (fetches (trace w)) + i)%nat with (fetches (trace w) + S i)%nat by lia. }
    rewrite Hr, Hf, Hd, Hf1, Hd1.
    replace (S (fetches (trace w)) + k)%nat with (fetches (trace w) + S k)%nat by lia.
    repeat split; lia.
Qed.

(** A run that makes all the requests the retry ceiling leaves it:
    every request but the last one failed, and the run ends as the
    last one does. *)
Lemma fetchWithRetry_all_attempts (url : string) (n : nat) :
  forall (retryCount : Z) (w : World),
  Z.to_nat (MAX_RETRIES cfg - retryCount) = n ->
  fetches (trace (snd (retrying url retryCount w))) = (fetches (trace w) + n + 1)%nat ->
  fst (retrying url retryCount w) = outcome_of (network (fetches (trace w) + n)%nat url)
  /\ (forall i, (i < n)%nat ->
        exists e, outcome_of (network (fetches (trace w) + i)%nat url) = Throw e).
Proof.
  induction n as [|n IH]; intros retryCount w Hn Hall.
  - destruct (allows w) eqn:Ha.
    + rewrite (fetchWithRetry_allowed_run url retryCount w Ha), attempt_run in *.
      rewrite (proj2 (Z.ltb_ge retryCount (MAX_RETRIES cfg))) in * by lia.
      rewrite checked_trace, Nat.add_0_r in *.
      split; [|intros i Hi; lia].
      destruct (outcome_of (network (fetches (trace w)) url)); reflexivity.
    + rewrite (fetchWithRetry_denied_run url retryCount w Ha) in Hall.
      simpl in Hall. lia.
  - destruct (allows w) eqn:Ha.
    + rewrite (fetchWithRetry_allowed_run url retryCount w Ha), attempt_run in *.
      rewrite (proj2 (Z.ltb_lt retryCount (MAX_RETRIES cfg))) in * by lia.
      rewrite checked_trace in *.
      destruct (outcome_of (network (fetches (trace w)) url)) as [r|e] eqn:Ho.
      * simpl in Hall. rewrite fetches_snoc_fetch in Hall. lia.
      * match type of Hall with
        | context [retrying url (retryCount + 1) ?w1] =>
            assert (fetches (trace w1) = S (fetches (trace w))) as Hf1
              by (simpl; now rewrite fetches_snoc_delay, fetches_snoc_fetch);
            destruct (IH (retryCount + 1) w1 ltac:(lia)) as [Hr Hfail]; [rewrite Hf1; lia|]
        end.
        rewrite Hf1 in Hr, Hfail.
        replace (fetches (trace w) + S n)%nat with (S (fetches (trace w)) + n)%nat by lia.
        split; [exact Hr|].
        intros [|i] Hi; [rewrite Nat.add_0_r; eauto|].
        replace (fetches (trace w) + S i)%nat with (S (fetches (trace w)) + i)%nat by lia.
        apply Hfail. lia.
    + rewrite (fetchWithRetry_denied_run url retryCount w Ha) in Hall.
      simpl in Hall. lia.
Qed.

End FetchFacts.

(** C3. A call of [fetchWithRetry] that the limiter denies, at any
    retry count (so the first call of a run or one of its retries),
    fails at once with the rate-limit error: the flag is raised and
    nothing else changes, so no network request is issued, no delay is
    awaited and no retry is made. *)
Theorem fetchWithRetry_denied (cfg : Config) (clientId : string)
    (network : nat -> string -> Reply) (url : string) (retryCount : Z) (w : World) :
  limiter_allows cfg clientId w = false ->
  fetchWithRetry cfg clientId network url retryCount w
  = (Throw RateLimitExceeded, set_rateLimitExceeded true w)
  /\ trace (snd (fetchWithRetry cfg clientId network url retryCount w)) = trace w
  /\ clock (snd (fetchWithRetry cfg clientId network url retryCount w)) = clock w
  /\ requestCounts (snd (fetchWithRetry cfg clientId network url retryCount w))
     = requestCounts w.
Proof.
  intros Hd. rewrite (fetchWithRetry_denied_run cfg clientId network url retryCount w Hd).
  repeat split.
Qed.

Lemma fetchWithRetry_denied_witness :
  fetchWithRetry config_1_per_1000 "client_1" (network_failing_first 0 []) "/api/v1/reports" 0
    throttled_world
  = (Throw RateLimitExceeded, set_rateLimitExceeded true throttled_world).
Proof.
  apply (fetchWithRetry_denied config_1_per_1000 "client_1" (network_failing_first 0 [])
           "/api/v1/reports" 0 throttled_world).
  vm_compute. reflexivity.
Defined.

(** C4, as the specification states it, fails: a denied call with all
    its retries left is not retried. *)
Lemma denial_is_retried_refuted :
  ~ denial_is_retried config_1_per_1000 "client_1" network_down "/api/v1/reports" 0
      throttled_world.
Proof.
  intros H. unfold denial_is_retried in H.
  assert (limiter_allows config_1_per_1000 "client_1" throttled_world = false) as Hd
    by (vm_compute; reflexivity).
  specialize (H Hd ltac:(simpl; unfold DEFAULT_MAX_RETRIES; lia)).
  rewrite (fetchWithRetry_denied_run _ _ _ _ _ _ Hd) in H. simpl in H. lia.
Qed.

(** C4, amended.  A failed attempt (abort, network failure, wrong
    content type, HTTP status) is retried while retries are left, and
    the retry passes the limiter again; a denial by the limiter is not
    retried, at the first call or at a retry.  So every run is [k]
    delays with [k] at most the retries left, ended either by a denial
    after [k] network requests or by an attempt after [k + 1]; and a
    run that makes no network request makes no retry: it is a denial at
    the first call. *)
Theorem fetchWithRetry_retries (cfg : Config) (clientId : string)
    (network : nat -> string -> Reply) (url : string) (retryCount : Z) (w : World) :
  let result := fetchWithRetry cfg clientId network url retryCount w in
  (limiter_allows cfg clientId w = false ->
     result = (Throw RateLimitExceeded, set_rateLimitExceeded true w))
  /\ (forall err w1,
        limiter_allows cfg clientId w = true ->
        attempt cfg network url (checked cfg clientId w) = (Throw err, w1) ->
        retryCount < MAX_RETRIES cfg ->
        err <> RateLimitExceeded
        /\ result = fetchWithRetry cfg clientId network url (retryCount + 1) (delayed cfg w1))
  /\ (exists k : nat,
        (k <= Z.to_nat (MAX_RETRIES cfg - retryCount))%nat
        /\ delays (trace (snd result)) = (delays (trace w) + k)%nat
        /\ ((fst result = Throw RateLimitExceeded
             /\ fetches (trace (snd result)) = (fetches (trace w) + k)%nat)
            \/ (fst result <> Throw RateLimitExceeded
                /\ fetches (trace (snd result)) = (fetches (trace w) + k + 1)%nat)))
  /\ (fetches (trace (snd result)) = fetches (trace w) ->
      delays (trace (snd result)) = delays (trace w)
      /\ fst result = Throw RateLimitExceeded).
Proof.
  intros result. subst result.
  pose proof (fetchWithRetry_shape cfg clientId network _ url retryCount w eq_refl)
    as (k & Hk & Hd & Hf).
  split; [apply fetchWithRetry_denied_run|].
  split.
  { intros err w1 Ha Hatt Hlt.
    rewrite (fetchWithRetry_allowed_run cfg clientId network url retryCount w Ha), Hatt.
    rewrite (proj2 (Z.ltb_lt retryCount (MAX_RETRIES cfg)) Hlt).
    split; [|reflexivity].
    rewrite attempt_run in Hatt. injection Hatt as Ho _.
    intros ->. exact (attempt_outcome_not_rate_limit cfg _ Ho). }
  split; [exists k; auto|].
  intros Hno. destruct Hf as [[Hr Hf]|[Hr Hf]]; [|lia].
  split; [lia|exact Hr].
Qed.

Lemma fetchWithRetry_retries_witness :
  limiter_allows config_3_per_1000 "client_1" fresh_world = true
  /\ fetchWithRetry config_3_per_1000 "client_1" network_down "/api/v1/reports" 0 fresh_world
     = fetchWithRetry config_3_per_1000 "client_1" network_down "/api/v1/reports" (0 + 1)
         (delayed config_3_per_1000
            (snd (attempt config_3_per_1000 network_down "/api/v1/reports"
                    (checked config_3_per_1000 "client_1" fresh_world)))).
Proof.
  split; [vm_compute; reflexivity|].
  apply (proj1 (proj2 (fetchWithRetry_retries config_3_per_1000 "client_1" network_down
                         "/api/v1/reports" 0 fresh_world)) (HttpError 500)).
  - vm_compute. reflexivity.
  - vm_compute. reflexivity.
  - simpl. unfold DEFAULT_MAX_RETRIES. lia.
Defined.

(** C5. A failed attempt (abort on timeout, network failure, wrong
    content type, status outside 200..299) is retried exactly when the
    retry count is below [MAX_RETRIES], after the fixed delay
    [RETRY_DELAY_MS]; otherwise its error goes to the caller.  A run
    started at retry count 0 makes at most [MAX_RETRIES + 1] network
    requests; a run that makes them all has failed the first
    [MAX_RETRIES] and ends as the last one does, with its response or
    with its error; and when the limiter has room for them, a run whose
    first [MAX_RETRIES] attempts fail does make them all. *)
Theorem fetchWithRetry_retry_policy (cfg : Config) (clientId : string)
    (network : nat -> string -> Reply) (url : string) (w : World) :
  let result := fetchWithRetry cfg clientId network url 0 w in
  let n := Z.to_nat (MAX_RETRIES cfg) in
  let n0 := fetches (trace w) in
  (forall retryCount w0 err w1,
     limiter_allows cfg clientId w0 = true ->
     attempt cfg network url (checked cfg clientId w0) = (Throw err, w1) ->
     (retryCount < MAX_RETRIES cfg ->
        fetchWithRetry cfg clientId network url retryCount w0
        = fetchWithRetry cfg clientId network url (retryCount + 1) (delayed cfg w1)
        /\ trace (delayed cfg w1) = trace w1 ++ [EvDelay (RETRY_DELAY_MS cfg)]
        /\ clock (delayed cfg w1) = clock w1 + Z.max 0 (RETRY_DELAY_MS cfg))
     /\ (MAX_RETRIES cfg <= retryCount ->
        fetchWithRetry cfg clientId network url retryCount w0 = (Throw err, w1)))
  /\ (fetches (trace (snd result)) <= n0 + n + 1)%nat
  /\ (fetches (trace (snd result)) = (n0 + n + 1)%nat ->
      (forall i, (i < n)%nat ->
         exists e, attempt_outcome cfg (network (n0 + i)%nat url) = Throw e)
      /\ fst result = attempt_outcome cfg (network (n0 + n)%nat url))
  /\ (0 <= MAX_RETRIES cfg ->
      slots_used clientId w + MAX_RETRIES cfg + 1 <= MAX_REQUESTS cfg ->
      (forall i, (i < n)%nat ->
         exists e, attempt_outcome cfg (network (n0 + i)%nat url) = Throw e) ->
      fst result = attempt_outcome cfg (network (n0 + n)%nat url)
      /\ fetches (trace (snd result)) = (n0 + n + 1)%nat
      /\ delays (trace (snd result)) = (delays (trace w) + n)%nat).
Proof.
  intros result n n0. subst result n n0.
  split.
  { intros retryCount w0 err w1 Ha Hatt.
    rewrite (fetchWithRetry_allowed_run cfg clientId network url retryCount w0 Ha), Hatt.
    split; intros H.
    - rewrite (proj2 (Z.ltb_lt retryCount (MAX_RETRIES cfg)) H). repeat split.
    - now rewrite (proj2 (Z.ltb_ge retryCount (MAX_RETRIES cfg)) H). }
  split.
  { pose proof (fetchWithRetry_shape cfg clientId network _ url 0 w eq_refl)
      as (k & Hk & _ & Hf).
    rewrite Z.sub_0_r in Hk. destruct Hf as [[_ Hf]|[_ Hf]]; lia. }
  split.
  { intros Hall.
    destruct (fetchWithRetry_all_attempts cfg clientId network url
                (Z.to_nat (MAX_RETRIES cfg)) 0 w) as [Hr Hfail];
      [now rewrite Z.sub_0_r | exact Hall | now split]. }
  intros Hmax Hslots Hfail.
  apply (fetchWithRetry_run cfg clientId network url (Z.to_nat (MAX_RETRIES cfg)) 0 w);
    [lia | lia | exact Hfail].
Qed.

Lemma fetchWithRetry_retry_policy_witness :
  fst (fetchWithRetry API_CONFIG_default "client_1"
         (network_failing_first 3 [report_from "9.9.9.9"]) "/api/v1/reports" 0 fresh_world)
  = attempt_outcome API_CONFIG_default (reply_ok [report_from "9.9.9.9"])
  /\ fetches (trace (snd (fetchWithRetry API_CONFIG_default "client_1"
         (network_failing_first 3 [report_from "9.9.9.9"]) "/api/v1/reports" 0 fresh_world)))
     = 4%nat
  /\ delays (trace (snd (fetchWithRetry API_CONFIG_default "client_1"
         (network_failing_first 3 [report_from "9.9.9.9"]) "/api/v1/reports" 0 fresh_world)))
     = 3%nat.
Proof.
  apply (proj2 (proj2 (proj2 (fetchWithRetry_retry_policy API_CONFIG_default "client_1"
           (network_failing_first 3 [report_from "9.9.9.9"]) "/api/v1/reports" fresh_world)))).
  - simpl. unfold DEFAULT_MAX_RETRIES. lia.
  - vm_compute. discriminate.
  - intros i Hi. exists (HttpError 500).
    destruct i as [|[|[|i]]]; try reflexivity.
    simpl in Hi. unfold DEFAULT_MAX_RETRIES in Hi. lia.
Defined.

(** ** Cache *)

Section CacheFacts.

Variable cfg : Config.
Variable clientId : string.
Variable network : nat -> string -> Reply.

Local Abbreviation caching := (fetchWithCache cfg clientId network).
Local Abbreviation retrying := (fetchWithRetry cfg clientId network).

Lemma cache_hit_fresh (url : string) (w : World) (e : CacheEntry) :
  CACHE_ENABLED cfg = true ->
  cache w !! url = Some e ->
  clock w - timestamp e < DURATION_MS cfg ->
  cache_hit cfg url w = Some (data e).
Proof.
  intros Hen He Hfresh. unfold cache_hit. rewrite Hen, He.
  now rewrite (proj2 (Z.ltb_lt _ _) Hfresh).
Qed.

Lemma cache_hit_none (url : string) (w : World) :
  (forall e, cache w !! url = Some e -> DURATION_MS cfg <= clock w - timestamp e) ->
  cache_hit cfg url w = None.
Proof.
  intros Hstale. unfold cache_hit.
  destruct (CACHE_ENABLED cfg); [|reflexivity].
  destruct (cache w !! url) as [e|] eqn:He; [|reflexivity].
  now rewrite (proj2 (Z.ltb_ge _ _) (Hstale e eq_refl)).
Qed.

Lemma fetchWithCache_hit (url : string) (w : World) (d : Payload) :
  cache_hit cfg url w = Some d -> caching url w = (Return d, w).
Proof. intros H. unfold fetchWithCache, bind, gets. now rewrite H. Qed.

Lemma fetchWithCache_miss (url : string) (w w1 : World) (response : Response) (d : Payload) :
  CACHE_ENABLED cfg = true ->
  cache_hit cfg url w = None ->
  retrying url 0 w = (Return response, w1) ->
  body response = Some d ->
  caching url w
  = (Return d, set_cache (<[url := {| data := d; timestamp := clock w1 |}]> (cache w1)) w1).
Proof.
  intros Hen Hmiss Hfetch Hbody. unfold fetchWithCache, bind, gets.
  rewrite Hmiss, Hfetch. unfold json. rewrite Hbody, Hen. reflexivity.
Qed.

(** A call the limiter allows and whose first attempt succeeds. *)
Lemma fetchWithRetry_first_try (url : string) (w : World) (response : Response) :
  limiter_allows cfg clientId w = true ->
  attempt_outcome cfg (network (fetches (trace w)) url) = Return response ->
  retrying url 0 w
  = (Return response,
     advance (attempt_elapsed cfg (network (fetches (trace w)) url))
       (log (EvFetch url) (checked cfg clientId w))).
Proof.
  intros Ha Ho.
  rewrite (fetchWithRetry_allowed_run cfg clientId network url 0 w Ha), attempt_run.
  rewrite checked_trace, Ho. reflexivity.
Qed.

(** The scenario of the specification: a first call that has to fetch,
    a second one while the entry is fresh, a third one when it is
    stale; the network answers each request at once with JSON and the
    limiter has room for two requests. *)
Lemma fetchWithCache_scenario (url : string) (w : World)
    (response1 response2 : Response) (d1 d2 : Payload) (delta1 delta2 : Z) :
  CACHE_ENABLED cfg = true ->
  (forall e, cache w !! url = Some e -> DURATION_MS cfg <= clock w - timestamp e) ->
  slots_used clientId w + 2 <= MAX_REQUESTS cfg ->
  attempt_outcome cfg (network (fetches (trace w)) url) = Return response1 ->
  body response1 = Some d1 ->
  attempt_outcome cfg (network (S (fetches (trace w))) url) = Return response2 ->
  body response2 = Some d2 ->
  0 <= delta1 < DURATION_MS cfg ->
  0 <= delta2 -> DURATION_MS cfg <= delta1 + delta2 ->
  let first := caching url w in
  let second := caching url (advance delta1 (snd first)) in
  let third := caching url (advance delta2 (snd second)) in
  fst first = Return d1
  /\ fetches (trace (snd first)) = S (fetches (trace w))
  /\ fst second = Return d1
  /\ snd second = advance delta1 (snd first)
  /\ fetches (trace (snd second)) = S (fetches (trace w))
  /\ fst third = Return d2
  /\ fetches (trace (snd third)) = S (S (fetches (trace w))).
Proof.
  intros Hen Hmiss Hslots Ho1 Hb1 Ho2 Hb2 Hd1 Hd2 Hd12. cbv zeta.
  destruct (allows_of_free_slot cfg clientId w ltac:(lia)) as [Ha Hused].
  rewrite (fetchWithCache_miss url w _ response1 d1 Hen (cache_hit_none url w Hmiss)
             (fetchWithRetry_first_try url w response1 Ha Ho1) Hb1).
  match goal with
  | |- context [caching url (advance delta1 ?w1)] => set (w1' := w1)
  end.
  assert (fetches (trace w1') = S (fetches (trace w))) as Hf1
    by (subst w1'; simpl; now rewrite fetches_snoc_fetch).
  assert (cache_hit cfg url (advance delta1 w1') = Some d1) as Hhit.
  { eapply (cache_hit_fresh url _ {| data := d1; timestamp := _ |} Hen).
    - subst w1'. simpl. apply lookup_insert_eq.
    - subst w1'. simpl. lia. }
  rewrite (fetchWithCache_hit url _ d1 Hhit). cbn [fst snd].
  set (w2 := advance delta1 w1').
  assert (fetches (trace (advance delta2 w2)) = S (fetches (trace w))) as Hf2 by exact Hf1.
  assert (cache_hit cfg url (advance delta2 w2) = None) as Hmiss3.
  { apply cache_hit_none. intros e He. subst w2 w1'. simpl in He.
    rewrite lookup_insert_eq in He. injection He as <-. simpl. lia. }
  assert (limiter_allows cfg clientId (advance delta2 w2) = true) as Ha3.
  { apply allows_of_free_slot.
    change (slots_used clientId (advance delta2 w2))
      with (slots_used clientId (checked cfg clientId w)). lia. }
  assert (attempt_outcome cfg (network (fetches (trace (advance delta2 w2))) url)
          = Return response2) as Ho3 by (rewrite Hf2; exact Ho2).
  rewrite (fetchWithCache_miss url _ _ response2 d2 Hen Hmiss3
             (fetchWithRetry_first_try url _ response2 Ha3 Ho3) Hb2).
  cbn [fst snd]. repeat split; try assumption.
  simpl. rewrite fetches_snoc_fetch. now f_equal.
Qed.

End CacheFacts.

(** C6. With caching enabled, a call of [fetchWithCache] that finds an
    entry for the URL less than [DURATION_MS] old returns the stored data
    and changes nothing, so it makes no network request; a call that
    finds no such entry and whose resilient fetch returns a response
    with a JSON body returns the parsed data and stores it, with the
    time of storing, under the URL in place of any entry there (and
    when the resilient fetch throws, so does the call).  So when
    the network answers with JSON at once and the limiter has room, a
    first call makes one request, a second call less than [DURATION_MS]
    after it makes none, and a call [DURATION_MS] or more after the first
    makes the second request. *)
Theorem fetchWithCache_spec (cfg : Config) (clientId : string)
    (network : nat -> string -> Reply) (url : string) (w : World) :
  CACHE_ENABLED cfg = true ->
  (forall e,
     cache w !! url = Some e -> clock w - timestamp e < DURATION_MS cfg ->
     fetchWithCache cfg clientId network url w = (Return (data e), w))
  /\ (forall response w1 d,
        (forall e, cache w !! url = Some e -> DURATION_MS cfg <= clock w - timestamp e) ->
        fetchWithRetry cfg clientId network url 0 w = (Return response, w1) ->
        body response = Some d ->
        fst (fetchWithCache cfg clientId network url w) = Return d
        /\ cache (snd (fetchWithCache cfg clientId network url w)) !! url
           = Some {| data := d; timestamp := clock w1 |}
        /\ (forall url', url <> url' ->
              cache (snd (fetchWithCache cfg clientId network url w)) !! url'
              = cache w1 !! url')
        /\ trace (snd (fetchWithCache cfg clientId network url w)) = trace w1)
  /\ (forall err w1,
        (forall e, cache w !! url = Some e -> DURATION_MS cfg <= clock w - timestamp e) ->
        fetchWithRetry cfg clientId network url 0 w = (Throw err, w1) ->
        fetchWithCache cfg clientId network url w = (Throw err, w1))
  /\ (forall response1 response2 d1 d2 delta1 delta2,
        (forall e, cache w !! url = Some e -> DURATION_MS cfg <= clock w - timestamp e) ->
        slots_used clientId w + 2 <= MAX_REQUESTS cfg ->
        attempt_outcome cfg (network (fetches (trace w)) url) = Return response1 ->
        body response1 = Some d1 ->
        attempt_outcome cfg (network (S (fetches (trace w))) url) = Return response2 ->
        body response2 = Some d2 ->
        0 <= delta1 < DURATION_MS cfg ->
        0 <= delta2 -> DURATION_MS cfg <= delta1 + delta2 ->
        let first := fetchWithCache cfg clientId network url w in
        let second := fetchWithCache cfg clientId network url (advance delta1 (snd first)) in
        let third := fetchWithCache cfg clientId network url (advance delta2 (snd second)) in
        fst first = Return d1
        /\ fetches (trace (snd first)) = S (fetches (trace w))
        /\ fst second = Return d1
        /\ snd second = advance delta1 (snd first)
        /\ fetches (trace (snd second)) = S (fetches (trace w))
        /\ fst third = Return d2
        /\ fetches (trace (snd third)) = S (S (fetches (trace w)))).
Proof.
  intros Hen. split; [|split; [|split]].
  - intros e He Hfresh. apply fetchWithCache_hit. now apply cache_hit_fresh.
  - intros response w1 d Hstale Hfetch Hbody.
    rewrite (fetchWithCache_miss cfg clientId network url w w1 response d Hen
               (cache_hit_none cfg url w Hstale) Hfetch Hbody).
    simpl. split; [reflexivity|]. split; [apply lookup_insert_eq|].
    split; [|reflexivity]. intros url' Hne. now apply lookup_insert_ne.
  - intros err w1 Hstale Hfetch. unfold fetchWithCache, bind, gets.
    now rewrite (cache_hit_none cfg url w Hstale), Hfetch.
  - intros. now apply (fetchWithCache_scenario cfg clientId network url w
                         response1 response2 d1 d2 delta1 delta2).
Qed.

Lemma fetchWithCache_spec_witness :
  let net := network_failing_first 0 [report_from "9.9.9.9"] in
  let first := fetchWithCache API_CONFIG_default "client_1" net "/api/v1/reports" fresh_world in
  let second := fetchWithCache API_CONFIG_default "client_1" net "/api/v1/reports"
                  (advance 1000 (snd first)) in
  let third := fetchWithCache API_CONFIG_default "client_1" net "/api/v1/reports"
                 (advance 300000 (snd second)) in
  fst first = Return [report_from "9.9.9.9"]
  /\ fetches (trace (snd first)) = 1%nat
  /\ fst second = Return [report_from "9.9.9.9"]
  /\ snd second = advance 1000 (snd first)
  /\ fetches (trace (snd second)) = 1%nat
  /\ fst third = Return [report_from "9.9.9.9"]
  /\ fetches (trace (snd third)) = 2%nat.
Proof.
  eapply (proj2 (proj2 (proj2 (fetchWithCache_spec API_CONFIG_default "client_1"
            (network_failing_first 0 [report_from "9.9.9.9"]) "/api/v1/reports" fresh_world
            eq_refl)))).
  - intros e He. simpl in He. rewrite lookup_empty in He. discriminate He.
  - vm_compute. discriminate.
  - reflexivity.
  - reflexivity.
  - reflexivity.
  - reflexivity.
  - simpl. unfold DEFAULT_CACHE_DURATION_MS. lia.
  - lia.
  - simpl. unfold DEFAULT_CACHE_DURATION_MS. lia.
Defined.

(** ** Statistics *)

Section CountsFacts.

Import Counts.

Lemma get_set (k k' : string) (v : Z) (m : Counts.t) :
  get k (set k' v m) = if String.eqb k k' then Some v else get k m.
Proof.
  induction m as [|[k0 v0] m IH]; simpl.
  - destruct (String.eqb_spec k k'); reflexivity.
  - destruct (String.eqb_spec k' k0) as [->|Hne]; simpl.
    + destruct (String.eqb_spec k k0); reflexivity.
    + destruct (String.eqb_spec k k0) as [->|Hne'].
      * destruct (String.eqb_spec k0 k'); [congruence|reflexivity].
      * exact IH.
Qed.

Lemma keys_set (k : string) (v : Z) (m : Counts.t) :
  map fst (set k v m) = if existsb (String.eqb k) (map fst m) then map fst m
                        else map fst m ++ [k].
Proof.
  induction m as [|[k0 v0] m IH]; simpl; [reflexivity|].
  destruct (String.eqb_spec k k0) as [->|Hne]; simpl; [reflexivity|].
  rewrite IH. destruct (existsb (String.eqb k) (map fst m)); reflexivity.
Qed.

Lemma keys_set_In (k k0 : string) (v : Z) (m : Counts.t) :
  In k0 (map fst (set k v m)) <-> k0 = k \/ In k0 (map fst m).
Proof.
  rewrite keys_set. destruct (existsb (String.eqb k) (map fst m)) eqn:E.
  - split; [auto|]. intros [->|H]; [|exact H].
    apply List.existsb_exists in E as (x & Hx & Hk).
    apply String.eqb_eq in Hk. now subst x.
  - rewrite List.in_app_iff. simpl. split.
    + intros [H|[H|[]]]; auto.
    + intros [H|H]; auto.
Qed.

Lemma keys_set_NoDup (k : string) (v : Z) (m : Counts.t) :
  NoDup (map fst m) -> NoDup (map fst (set k v m)).
Proof.
  intros H. rewrite keys_set. destruct (existsb (String.eqb k) (map fst m)) eqn:E.
  - exact H.
  - apply NoDup_app. split; [exact H|]. split.
    + intros x Hx Hk. apply list_elem_of_In in Hx. apply list_elem_of_In in Hk.
      destruct Hk as [<-|[]].
      assert (existsb (String.eqb k) (map fst m) = true) as E'; [|congruence].
      apply List.existsb_exists. exists k. split; [exact Hx|apply String.eqb_refl].
    + apply NoDup_singleton.
Qed.

Lemma get_In (k : string) (c : Z) (m : Counts.t) :
  get k m = Some c -> In (k, c) m.
Proof.
  induction m as [|[k0 v0] m IH]; simpl; [discriminate|].
  destruct (String.eqb_spec k k0) as [->|Hne].
  - intros [= ->]. now left.
  - intros H. right. now apply IH.
Qed.

Lemma In_get (k : string) (c : Z) (m : Counts.t) :
  NoDup (map fst m) -> In (k, c) m -> get k m = Some c.
Proof.
  induction m as [|[k0 v0] m IH]; simpl; intros Hnd Hin; [destruct Hin|].
  inversion Hnd as [|? ? Hnotin Hnd']; subst.
  destruct Hin as [[= -> ->]|Hin].
  - now rewrite String.eqb_refl.
  - destruct (String.eqb_spec k k0) as [->|Hne]; [|now apply IH].
    exfalso. apply Hnotin, list_elem_of_In, List.in_map_iff. now exists (k0, c).
Qed.

Lemma get_None (k : string) (m : Counts.t) :
  get k m = None <-> ~ In k (map fst m).
Proof.
  induction m as [|[k0 v0] m IH]; simpl; [tauto|].
  destruct (String.eqb_spec k k0) as [->|Hne].
  - split; [discriminate|]. intros H. exfalso. apply H. now left.
  - rewrite IH. split; [intros H [H'|H']; [congruence|contradiction] | tauto].
Qed.

Lemma occurrences_cons (k k' : string) (keys : list string) :
  occurrences k (k' :: keys)
  = (if String.eqb k k' then 1 else 0) + occurrences k keys.
Proof.
  unfold occurrences. simpl. destruct (String.eqb k k'); simpl; lia.
Qed.

Lemma occurrences_nonneg (k : string) (keys : list string) : 0 <= occurrences k keys.
Proof. unfold occurrences. lia. Qed.

Lemma occurrences_pos (k : string) (keys : list string) :
  0 < occurrences k keys <-> In k keys.
Proof.
  induction keys as [|k' keys IH]; [unfold occurrences; simpl; split; [lia|tauto]|].
  rewrite occurrences_cons. simpl.
  pose proof (occurrences_nonneg k keys).
  destruct (String.eqb_spec k k') as [->|Hne].
  - split; [now left|lia].
  - rewrite Z.add_0_l, IH. split; [now right|]. intros [H'|H']; [congruence|exact H'].
Qed.

(** Two different keys share the reports between them. *)
Lemma occurrences_disjoint (k k' : string) (keys : list string) :
  k <> k' -> occurrences k keys + occurrences k' keys <= Z.of_nat (length keys).
Proof.
  intros Hne. induction keys as [|k0 keys IH]; [unfold occurrences; simpl; lia|].
  rewrite !occurrences_cons. simpl length.
  destruct (String.eqb_spec k k0) as [->|H1];
    destruct (String.eqb_spec k' k0) as [->|H2]; try congruence; lia.
Qed.

Lemma bump_ok (k : string) (m : Counts.t) : counts_ok m -> counts_ok (bump k m).
Proof.
  intros [Hnd Hpos]. unfold bump. split; [now apply keys_set_NoDup|].
  intros k0 c Hin.
  apply In_get in Hin; [|now apply keys_set_NoDup].
  rewrite get_set in Hin. destruct (String.eqb_spec k0 k) as [->|Hne].
  - injection Hin as <-. destruct (get k m) as [v|] eqn:E; simpl; [|lia].
    apply get_In in E. specialize (Hpos k v E). lia.
  - apply get_In in Hin. now apply (Hpos k0).
Qed.

Lemma count_from_ok (keys : list string) : forall m,
  counts_ok m -> counts_ok (fold_left (fun m k => bump k m) keys m).
Proof.
  induction keys as [|k keys IH]; intros m H; simpl; [exact H|].
  apply IH. now apply bump_ok.
Qed.

Lemma count_from_get (k : string) (keys : list string) : forall m,
  default 0 (get k (fold_left (fun m k => bump k m) keys m))
  = default 0 (get k m) + occurrences k keys.
Proof.
  induction keys as [|k' keys IH]; intros m; simpl.
  - unfold occurrences. simpl. lia.
  - rewrite IH, occurrences_cons. unfold bump at 1. rewrite get_set.
    destruct (String.eqb_spec k k') as [->|Hne]; simpl; lia.
Qed.

Lemma count_from_keys (k : string) (keys : list string) : forall m,
  In k (map fst (fold_left (fun m k => bump k m) keys m))
  <-> In k (map fst m) \/ In k keys.
Proof.
  induction keys as [|k' keys IH]; intros m; simpl; [tauto|].
  rewrite IH. unfold bump. rewrite keys_set_In. split.
  - intros [[->|H]|H]; auto.
  - intros [H|[->|H]]; auto.
Qed.

Lemma count_all_ok (keys : list string) : counts_ok (count_all keys).
Proof.
  apply count_from_ok. split; [constructor|]. intros k c [].
Qed.

(** The counting loop computes the frequency of each key. *)
Lemma count_all_In (k : string) (c : Z) (keys : list string) :
  In (k, c) (count_all keys) <-> In k keys /\ c = occurrences k keys.
Proof.
  destruct (count_all_ok keys) as [Hnd Hpos].
  pose proof (count_from_get k keys []) as Hget. simpl in Hget.
  pose proof (count_from_keys k keys []) as Hkeys. simpl in Hkeys.
  fold (count_all keys) in Hget, Hkeys.
  split.
  - intros Hin. split.
    + assert (In k (map fst (count_all keys))) as Hk
        by (apply List.in_map_iff; now exists (k, c)).
      apply Hkeys in Hk as [[]|Hk]. exact Hk.
    + apply (In_get k c _ Hnd) in Hin. rewrite Hin in Hget. simpl in Hget. lia.
  - intros [Hin ->].
    assert (In k (map fst (count_all keys))) as Hk by (apply Hkeys; now right).
    destruct (get k (count_all keys)) as [v|] eqn:E.
    + simpl in Hget. subst v. now apply get_In.
    + apply get_None in E. contradiction.
Qed.

End CountsFacts.

Section SortFacts.

Lemma insert_desc_perm (a : Entry) (l : list Entry) :
  Permutation (insert_desc a l) (a :: l).
Proof.
  induction l as [|b l IH]; simpl; [reflexivity|].
  destruct (count a <? count b); [|reflexivity].
  rewrite IH. apply perm_swap.
Qed.

Lemma sort_desc_perm (l : list Entry) : Permutation (sort_desc l) l.
Proof.
  induction l as [|a l IH]; simpl; [reflexivity|].
  rewrite insert_desc_perm. now apply perm_skip.
Qed.

Lemma sort_desc_In (e : Entry) (l : list Entry) : In e (sort_desc l) <-> In e l.
Proof.
  split; apply Permutation_in; [|symmetry]; apply sort_desc_perm.
Qed.

Lemma insert_desc_sorted (a : Entry) (l : list Entry) :
  StronglySorted before l -> StronglySorted before (insert_desc a l).
Proof.
  induction 1 as [|b l Hs IH Hb]; simpl; [repeat constructor|].
  destruct (Z.ltb_spec (count a) (count b)) as [Hlt|Hge].
  - constructor; [exact IH|].
    rewrite List.Forall_forall in *. intros x Hx.
    apply (Permutation_in _ (insert_desc_perm a l)) in Hx as [<-|Hx].
    + unfold before. lia.
    + now apply Hb.
  - constructor; [now constructor|].
    constructor; [exact Hge|].
    rewrite List.Forall_forall in *. intros x Hx. specialize (Hb x Hx).
    unfold before in *. lia.
Qed.

Lemma sort_desc_sorted (l : list Entry) : StronglySorted before (sort_desc l).
Proof.
  induction l as [|a l IH]; simpl; [constructor|]. now apply insert_desc_sorted.
Qed.

Lemma take_In {A} (n : nat) (l : list A) (x : A) : In x (take n l) -> In x l.
Proof.
  revert n. induction l as [|a l IH]; intros [|n]; simpl; try tauto.
  intros [H|H]; [now left | right; now apply (IH n)].
Qed.

Lemma take_sorted (n : nat) (l : list Entry) :
  StronglySorted before l -> StronglySorted before (take n l).
Proof.
  intros H. revert n. induction H as [|a l Hs IH Ha]; intros [|n]; simpl;
    try constructor; [apply IH|].
  rewrite List.Forall_forall in *. intros x Hx. apply Ha.
  now apply (take_In n l).
Qed.

(** The rows cut off by [slice] count no more than the rows kept. *)
Lemma take_dominates (n : nat) (l : list Entry) (x y : Entry) :
  StronglySorted before l -> In x (take n l) -> In y l -> ~ In y (take n l) ->
  count y <= count x.
Proof.
  intros H. revert n. induction H as [|a l Hs IH Ha]; intros [|n]; simpl;
    try tauto.
  intros [<-|Hx] [<-|Hy] Hny; try tauto.
  - rewrite List.Forall_forall in Ha. exact (Ha y Hy).
  - apply (IH n); tauto.
Qed.

(** A row that counts more than every other row comes first. *)
Lemma sort_desc_head (l : list Entry) (e : Entry) :
  In e l ->
  (forall e', In e' l -> e' = e \/ count e' < count e) ->
  head (sort_desc l) = Some e.
Proof.
  intros Hin Hmax.
  pose proof (sort_desc_sorted l) as Hs.
  apply sort_desc_In in Hin.
  destruct (sort_desc l) as [|h t] eqn:E; [destruct Hin|]. simpl.
  assert (In h l) as Hh by (apply sort_desc_In; rewrite E; now left).
  destruct Hin as [->|Hin]; [reflexivity|].
  destruct (Hmax h Hh) as [->|Hlt]; [reflexivity|].
  inversion Hs as [|? ? _ Hall]; subst.
  rewrite List.Forall_forall in Hall. specialize (Hall e Hin).
  unfold before in Hall. lia.
Qed.

Lemma entries_In (e : Entry) (m : Counts.t) :
  In e (entries m) <-> In (key e, count e) m.
Proof.
  unfold entries. rewrite List.in_map_iff. split.
  - intros ([k c] & <- & H). exact H.
  - intros H. exists (key e, count e). split; [now destruct e|exact H].
Qed.

Lemma entries_keys (m : Counts.t) : map key (entries m) = map fst m.
Proof.
  unfold entries. rewrite List.map_map. apply List.map_ext. now intros [k c].
Qed.

(** The table the code builds from the counting loop over [keys] is
    the table the specification describes. *)
Lemma top10_is_top10 (keys : list string) :
  is_top10 keys (top10 (Counts.count_all keys)).
Proof.
  unfold top10. set (l := sort_desc (entries (Counts.count_all keys))).
  assert (forall e, In e l <-> In (key e) keys /\ count e = occurrences (key e) keys)
    as Hl.
  { intros e. subst l. now rewrite sort_desc_In, entries_In, count_all_In. }
  pose proof (sort_desc_sorted (entries (Counts.count_all keys))) as Hs. fold l in Hs.
  split; [|split; [|split; [|split]]].
  - apply StronglySorted_Sorted. now apply take_sorted.
  - rewrite length_take. lia.
  - apply (sublist_NoDup _ (map key l)).
    + subst l. rewrite (Permutation_map key (sort_desc_perm _)), entries_keys.
      apply (count_all_ok keys).
    + rewrite <- (take_drop 10 l) at 2. rewrite map_app.
      apply sublist_inserts_r. reflexivity.
  - intros e He. apply Hl. now apply (take_In 10 l).
  - intros k Hk.
    set (e := {| key := k; count := occurrences k keys |}).
    assert (In e l) as He by (apply Hl; now split).
    destruct (List.in_dec
                (fun a b : Entry =>
                   ltac:(decide equality; [apply Z.eq_dec | apply string_dec]))
                e (take 10 l)) as [Hin|Hnin].
    + left. now exists e.
    + right. split.
      * rewrite length_take.
        destruct (Nat.le_gt_cases 10 (length l)) as [Hlen|Hlen]; [lia|].
        exfalso. apply Hnin. now rewrite firstn_all2 by lia.
      * intros x Hx. apply (take_dominates 10 l x e Hs Hx He Hnin).
Qed.

End SortFacts.

Section StatisticsFacts.

Variable parseUA : string -> UAResult.

Local Abbreviation step := (fun (m : Counts.t) (k : string) => Counts.bump k m).

(** The one loop over the reports with its seven maps does, for each
    map, what a counting loop over the keys of that field does. *)
Lemma tally_from (reports : list Report) : forall acc : Tally,
  let t := fold_left (tally_report parseUA) reports acc in
  userAgentCounts t = fold_left step (map ua_key reports) (userAgentCounts acc)
  /\ ipCounts t = fold_left step (map ip_key reports) (ipCounts acc)
  /\ directiveCounts t = fold_left step (map directive_key reports) (directiveCounts acc)
  /\ referrerCounts t
     = fold_left step (List.filter Str.truthy (map referrer_key reports))
         (referrerCounts acc)
  /\ blockedURICounts t = fold_left step (map uri_key reports) (blockedURICounts acc)
  /\ osCounts t = fold_left step (map (os_key parseUA) reports) (osCounts acc)
  /\ browserCounts t
     = fold_left step (map (browser_key parseUA) reports) (browserCounts acc).
Proof.
  induction reports as [|r reports IH]; intros acc; simpl; [repeat split|].
  destruct (IH (tally_report parseUA acc r)) as (H1 & H2 & H3 & H4 & H5 & H6 & H7).
  rewrite H1, H2, H3, H4, H5, H6, H7. simpl.
  repeat split.
  destruct (Str.truthy (referrer_key r)); reflexivity.
Qed.

Lemma referrer_keys_filter (reports : list Report) :
  List.filter Str.truthy (map referrer_key (List.filter has_referrer reports))
  = List.filter Str.truthy (map referrer_key reports).
Proof.
  induction reports as [|r reports IH]; simpl; [reflexivity|].
  unfold has_referrer at 1. unfold referrer_key at 2.
  destruct (referrer (report r)) as [s|] eqn:E; simpl; [|exact IH].
  destruct (Str.truthy s) eqn:Es; simpl; [|exact IH].
  unfold referrer_key at 1. rewrite E, Es, IH. reflexivity.
Qed.

Lemma occurrences_map {A} (f : A -> string) (k : string) (l : list A) :
  occurrences k (map f l)
  = Z.of_nat (length (List.filter (fun x => String.eqb (f x) k) l)).
Proof.
  unfold occurrences. induction l as [|x l IH]; simpl; [reflexivity|].
  rewrite (String.eqb_sym (f x) k).
  destruct (String.eqb k (f x)); simpl; lia.
Qed.

End StatisticsFacts.

(** C9, as the specification states its scenario, fails: the three
    reports from 9.9.9.9 are grouped with the report whose field holds
    the same address between angle brackets, and the first row counts 4. *)
Lemma top_ip_scenario_refuted :
  ~ top_ip_scenario_as_stated parse_nothing five_reports.
Proof.
  intros H. specialize (H eq_refl eq_refl). vm_compute in H. discriminate H.
Qed.

(** C9, amended.  For every list of reports, each of the seven tables
    is the top-10 table of its field: one row per group key (the
    sanitized value; for the two derived tables the sanitized, trimmed
    name and version the parser gives), counting all the reports of that
    key, descending by count, at most ten rows, no key left out that
    counts more than a row kept.  The referrer table is that of the
    reports that have a referrer: an absent or empty referrer adds
    nothing, and no row has the empty key.  Given five reports of which
    exactly three have a client IP that is 9.9.9.9 once sanitized, the
    first row of the IP table has key 9.9.9.9 and count 3. *)
Theorem calculateStatistics_spec (parseUA : string -> UAResult) (reports : list Report) :
  let stats := calculateStatistics parseUA reports in
  is_top10 (map ua_key reports) (topUserAgents stats)
  /\ is_top10 (map ip_key reports) (topIPs stats)
  /\ is_top10 (map directive_key reports) (topViolatedDirectives stats)
  /\ is_top10 (List.filter Str.truthy (map referrer_key reports)) (topReferrers stats)
  /\ is_top10 (map uri_key reports) (topBlockedURIs stats)
  /\ is_top10 (map (os_key parseUA) reports) (topOS stats)
  /\ is_top10 (map (browser_key parseUA) reports) (topBrowsers stats)
  /\ topReferrers stats
     = topReferrers (calculateStatistics parseUA (List.filter has_referrer reports))
  /\ (forall e, In e (topReferrers stats) -> key e <> EmptyString)
  /\ (length reports = 5%nat ->
      length (List.filter (fun r => String.eqb (ip_key r) "9.9.9.9") reports) = 3%nat ->
      head (topIPs stats) = Some {| key := "9.9.9.9"; count := 3 |}).
Proof.
  intros stats. subst stats. unfold calculateStatistics, tally.
  destruct (tally_from parseUA reports empty_tally) as (H1 & H2 & H3 & H4 & H5 & H6 & H7).
  cbn zeta in *. cbn [topUserAgents topIPs topViolatedDirectives topReferrers
                      topBlockedURIs topOS topBrowsers].
  rewrite H1, H2, H3, H4, H5, H6, H7. simpl.
  repeat (split; [apply top10_is_top10|]).
  split; [|split].
  - destruct (tally_from parseUA (List.filter has_referrer reports) empty_tally)
      as (_ & _ & _ & H4' & _).
    cbn zeta in H4'. rewrite H4', referrer_keys_filter. reflexivity.
  - intros e He Hk.
    destruct (top10_is_top10 (List.filter Str.truthy (map referrer_key reports)))
      as (_ & _ & _ & Hrows & _).
    destruct (Hrows e He) as [Hin _]. rewrite Hk in Hin.
    apply List.filter_In in Hin as [_ Hin]. discriminate Hin.
  - intros Hlen Hthree.
    assert (occurrences "9.9.9.9" (map ip_key reports) = 3) as Hocc
      by (rewrite occurrences_map, Hthree; reflexivity).
    unfold top10.
    change (fold_left (fun m k => Counts.bump k m) (map ip_key reports) [])
      with (Counts.count_all (map ip_key reports)).
    set (l := sort_desc (entries (Counts.count_all (map ip_key reports)))).
    assert (head l = Some {| key := "9.9.9.9"; count := 3 |}) as Hhead.
    { apply sort_desc_head.
      - apply entries_In, count_all_In. simpl. split; [|now rewrite Hocc].
        apply occurrences_pos. lia.
      - intros e He. apply entries_In, count_all_In in He as [Hin Hc].
        destruct (String.eqb_spec (key e) "9.9.9.9") as [Hk|Hk].
        + left. destruct e as [k c]. simpl in *. subst k. now rewrite Hc, Hocc.
        + right. simpl.
          pose proof (occurrences_disjoint (key e) "9.9.9.9" (map ip_key reports) Hk) as Hd.
          rewrite length_map, Hlen, Hocc in Hd. lia. }
    destruct l as [|h t]; [discriminate Hhead|exact Hhead].
Qed.

Lemma calculateStatistics_spec_witness :
  head (topIPs (calculateStatistics parse_nothing five_plain_reports))
  = Some {| key := "9.9.9.9"; count := 3 |}.
Proof.
  apply (proj2 (proj2 (proj2 (proj2 (proj2 (proj2 (proj2 (proj2 (proj2
           (calculateStatistics_spec parse_nothing five_plain_reports))))))))));
    reflexivity.
Defined.

(** * Further properties of the code *)

(** ** Sanitizers: composition, concatenation, lengths *)

Section SanitizerMore.

Lemma string_length_append (s t : string) :
  String.length (String.append s t) = (String.length s + String.length t)%nat.
Proof.
  induction s as [|c s IH]; [reflexivity|].
  rewrite append_cons. simpl. now rewrite IH.
Qed.

Lemma escape_char_length (c : ascii) :
  (1 <= String.length (escape_char c) <= 6)%nat.
Proof.
  unfold escape_char.
  destruct (Ascii.eqb c Str.lt); [simpl; lia|].
  destruct (Ascii.eqb c Str.gt); [simpl; lia|].
  destruct (Ascii.eqb c Str.quot); [simpl; lia|].
  destruct (Ascii.eqb c Str.apos); simpl; lia.
Qed.

Lemma sanitizeInput_length (s : string) :
  (String.length (sanitizeInput s) <= String.length s)%nat.
Proof.
  unfold sanitizeInput. induction s as [|c s IH]; simpl; [lia|].
  destruct (dangerous c); [rewrite append_nil_l | simpl]; lia.
Qed.

Lemma sanitizeHtml_length (s : string) :
  (String.length s <= String.length (sanitizeHtml s) <= 6 * String.length s)%nat.
Proof.
  rewrite sanitizeHtml_escape_all. induction s as [|c s IH]; simpl; [lia|].
  rewrite string_length_append. pose proof (escape_char_length c). lia.
Qed.

Lemma sanitizeInput_fixed (s : string) : sanitizeInput s = s <-> harmless s.
Proof.
  split.
  - intros H c Hc. rewrite <- H. now apply sanitizeInput_clean.
  - intros H. now apply replace_class_clean.
Qed.

Lemma sanitizeHtml_fixed (s : string) : sanitizeHtml s = s <-> harmless s.
Proof.
  split.
  - intros H c Hc. rewrite <- H, sanitizeHtml_escape_all. now apply escape_all_clean.
  - apply sanitizeHtml_fixes_clean.
Qed.

End SanitizerMore.

(** X1. Each sanitizer leaves the output of the other alone: escaping
    after stripping changes nothing, and stripping after escaping
    changes nothing. *)
Theorem sanitizers_compose (s : string) :
  sanitizeHtml (sanitizeInput s) = sanitizeInput s
  /\ sanitizeInput (sanitizeHtml s) = sanitizeHtml s.
Proof.
  split.
  - apply sanitizeHtml_fixed. intros c Hc. now apply sanitizeInput_clean.
  - apply sanitizeInput_fixed. intros c Hc.
    rewrite sanitizeHtml_escape_all. now apply escape_all_clean.
Qed.

(** X2. Both sanitizers work piece by piece: the result for a
    concatenation is the concatenation of the results. *)
Theorem sanitizers_append (s t : string) :
  sanitizeInput (String.append s t)
  = String.append (sanitizeInput s) (sanitizeInput t)
  /\ sanitizeHtml (String.append s t)
     = String.append (sanitizeHtml s) (sanitizeHtml t).
Proof.
  split; [apply replace_class_app | apply sanitizeHtml_app].
Qed.

(** X3. Stripping never lengthens a text; escaping never shortens it and
    makes it at most six times as long. *)
Theorem sanitizers_length (s : string) :
  (String.length (sanitizeInput s) <= String.length s)%nat
  /\ (String.length s <= String.length (sanitizeHtml s))%nat
  /\ (String.length (sanitizeHtml s) <= 6 * String.length s)%nat.
Proof.
  pose proof (sanitizeInput_length s). pose proof (sanitizeHtml_length s). lia.
Qed.

(** X4. The texts a sanitizer leaves unchanged are those without any of
    the four characters, for both sanitizers: one leaves a text alone
    exactly when the other does. *)
Theorem sanitizers_fixed_points (s : string) :
  (sanitizeInput s = s <->
     Str.contains Str.lt s = false /\ Str.contains Str.gt s = false
     /\ Str.contains Str.apos s = false /\ Str.contains Str.quot s = false)
  /\ (sanitizeInput s = s <-> sanitizeHtml s = s).
Proof.
  split.
  - rewrite sanitizeInput_fixed. split.
    + intros H. repeat split; now apply H.
    + intros (Hl & Hg & Ha & Hq) c Hc. unfold dangerous in Hc.
      repeat (apply orb_true_iff in Hc; destruct Hc as [Hc|Hc]);
        apply Ascii.eqb_eq in Hc; now subst c.
  - now rewrite sanitizeInput_fixed, sanitizeHtml_fixed.
Qed.

(** ** Rate limiter: what it guarantees *)

Section RateLimitMore.

Variable cfg : Config.

Local Abbreviation inw := (RateLimit.in_window (WINDOW_MS cfg)).

Lemma filter_none {A} (p : A -> bool) (l : list A) :
  (forall x, In x l -> p x = false) -> List.filter p l = [].
Proof.
  induction l as [|x l IH]; simpl; intros H; [reflexivity|].
  rewrite (H x (or_introl eq_refl)). apply IH. intros y Hy. apply H. now right.
Qed.

Lemma filter_filter_weaker {A} (p q : A -> bool) (l : list A) :
  (forall x, p x = true -> q x = true) ->
  List.filter p (List.filter q l) = List.filter p l.
Proof.
  intros H. induction l as [|x l IH]; simpl; [reflexivity|].
  destruct (q x) eqn:Eq; simpl.
  - destruct (p x); now rewrite IH.
  - destruct (p x) eqn:Ep; [|exact IH]. rewrite (H x Ep) in Eq. discriminate.
Qed.

(** What is in the window at a later time was in it before. *)
Lemma in_window_earlier (T T' t : Z) :
  T <= T' -> inw T' t = true -> inw T t = true.
Proof.
  unfold RateLimit.in_window. intros HT H.
  apply Z.ltb_lt in H. apply Z.ltb_lt. lia.
Qed.

(** Every stored sequence has at least one and at most [maxRequests]
    timestamps; no condition on the clock. *)
Lemma stored_bounded_step now c0 (m : gmap string (list Z)) :
  (forall c l, m !! c = Some l ->
     (1 <= length l)%nat /\ Z.of_nat (length l) <= MAX_REQUESTS cfg) ->
  forall c l, snd (RateLimit.checkRateLimit cfg now c0 m) !! c = Some l ->
    (1 <= length l)%nat /\ Z.of_nat (length l) <= MAX_REQUESTS cfg.
Proof.
  intros H c l.
  destruct (Z_lt_le_dec (Z.of_nat (length (RateLimit.kept cfg now c0 m)))
              (MAX_REQUESTS cfg)) as [Hlt|Hge].
  - rewrite (checkRateLimit_allowed cfg now c0 m Hlt). simpl.
    destruct (decide (c0 = c)) as [->|Hne].
    + rewrite lookup_insert_eq. intros [= <-]. rewrite length_app. simpl. lia.
    + rewrite lookup_insert_ne by exact Hne. apply H.
  - rewrite (checkRateLimit_denied cfg now c0 m Hge). simpl. apply H.
Qed.

Lemma stored_bounded_run calls : forall (m : gmap string (list Z)),
  (forall c l, m !! c = Some l ->
     (1 <= length l)%nat /\ Z.of_nat (length l) <= MAX_REQUESTS cfg) ->
  forall c l, snd (RateLimit.check_all cfg calls m) !! c = Some l ->
    (1 <= length l)%nat /\ Z.of_nat (length l) <= MAX_REQUESTS cfg.
Proof.
  induction calls as [|[t c0] calls IH]; intros m H; simpl; [exact H|].
  pose proof (stored_bounded_step t c0 m H) as Hstep.
  destruct (RateLimit.checkRateLimit cfg t c0 m) as [a m']. simpl in Hstep.
  specialize (IH m' Hstep).
  destruct (RateLimit.check_all cfg calls m') as [r f]. exact IH.
Qed.

Local Abbreviation agrees := (window_agrees cfg).

Lemma agrees_step c T now c0 h (m : gmap string (list Z)) :
  T <= now -> agrees c T h m ->
  agrees c now
    (h ++ (if fst (RateLimit.checkRateLimit cfg now c0 m) && String.eqb c c0
           then [now] else []))
    (snd (RateLimit.checkRateLimit cfg now c0 m)).
Proof.
  intros HT H T' HT'.
  destruct (Z_lt_le_dec (Z.of_nat (length (RateLimit.kept cfg now c0 m)))
              (MAX_REQUESTS cfg)) as [Hlt|Hge].
  - rewrite (checkRateLimit_allowed cfg now c0 m Hlt). simpl.
    destruct (String.eqb_spec c c0) as [<-|Hne].
    + rewrite stored_insert, !List.filter_app. f_equal.
      rewrite (H T' ltac:(lia)). unfold RateLimit.kept.
      symmetry. apply filter_filter_weaker.
      intros t Ht. exact (in_window_earlier now T' t HT' Ht).
    + rewrite app_nil_r. unfold RateLimit.stored.
      rewrite lookup_insert_ne by congruence. apply H. lia.
  - rewrite (checkRateLimit_denied cfg now c0 m Hge). simpl.
    rewrite app_nil_r. apply H. lia.
Qed.

Lemma agrees_run c calls : forall T T' h (m : gmap string (list Z)),
  T <= T' -> agrees c T h m ->
  StronglySorted Z.le (map fst calls) ->
  Forall (fun t => T <= t <= T') (map fst calls) ->
  agrees c T' (h ++ allowed_times cfg c calls m) (snd (RateLimit.check_all cfg calls m)).
Proof.
  induction calls as [|[t c0] calls IH]; intros T T' h m HT H Hs Hb; simpl.
  - rewrite app_nil_r. intros T2 HT2. apply H. lia.
  - simpl in Hs, Hb. inversion Hs as [|? ? Hs' Hle]; subst.
    inversion Hb as [|? ? Ht Hb']; subst.
    pose proof (agrees_step c T t c0 h m (proj1 Ht) H) as Hstep.
    destruct (RateLimit.checkRateLimit cfg t c0 m) as [a m']. simpl in Hstep.
    specialize (IH t T' _ m' (proj2 Ht) Hstep Hs').
    destruct (RateLimit.check_all cfg calls m') as [r f]. simpl in *.
    rewrite app_assoc. apply IH.
    rewrite List.Forall_forall in *. intros u Hu.
    specialize (Hle u Hu). specialize (Hb' u Hu). simpl in *. lia.
Qed.

End RateLimitMore.

(** X5. The sliding-window guarantee.  In a process whose clock does not
    go back, at the time [now] of any call, the calls of any client that
    the limiter has allowed within the window ending at [now] (the call
    at [now] included) number at most [maxRequests], and none when
    [maxRequests] is not positive. *)
Theorem rate_limit_guarantee (cfg : Config) (calls : list (Z * string))
    (now : Z) (clientId c : string) :
  RateLimit.clock_monotone (calls ++ [(now, clientId)]) ->
  Z.of_nat (length (List.filter (fun t => now - t <? WINDOW_MS cfg)
                      (allowed_times cfg c (calls ++ [(now, clientId)]) ∅)))
  <= Z.max 0 (MAX_REQUESTS cfg).
Proof.
  intros Hmono. unfold RateLimit.clock_monotone in Hmono.
  apply Sorted_StronglySorted in Hmono; [|intros x y z; apply Z.le_trans].
  assert (exists T, T <= now
            /\ Forall (fun t => T <= t <= now) (map fst (calls ++ [(now, clientId)])))
    as (T & HT & Hb).
  { rewrite map_app in *. simpl in *.
    apply StronglySorted_snoc_inv in Hmono as [Hs Hle].
    destruct (map fst calls) as [|t0 ts] eqn:E.
    - exists now. split; [lia|]. constructor; [lia|constructor].
    - exists t0. inversion Hs as [|? ? _ Hall]; subst.
      inversion Hle as [|? ? Ht0 Hts]; subst.
      split; [assumption|].
      apply Forall_app. split.
      + constructor; [lia|]. rewrite List.Forall_forall in *. intros u Hu.
        specialize (Hall u Hu). specialize (Hts u Hu). simpl in *. lia.
      + constructor; [lia|constructor]. }
  pose proof (agrees_run cfg c (calls ++ [(now, clientId)]) T now [] ∅ HT) as Hag.
  simpl in Hag.
  assert (forall T', T <= T' ->
            List.filter (RateLimit.in_window (WINDOW_MS cfg) T') []
            = List.filter (RateLimit.in_window (WINDOW_MS cfg) T') (RateLimit.stored c ∅))
    as H0 by (intros; unfold RateLimit.stored; now rewrite lookup_empty).
  specialize (Hag H0 Hmono Hb now ltac:(lia)).
  unfold RateLimit.in_window in Hag. rewrite Hag.
  pose proof (List.filter_length_le (fun t => now - t <? WINDOW_MS cfg)
                (RateLimit.stored c (snd (RateLimit.check_all cfg
                   (calls ++ [(now, clientId)]) ∅)))) as Hlen.
  unfold RateLimit.stored in *.
  destruct (snd (RateLimit.check_all cfg (calls ++ [(now, clientId)]) ∅) !! c)
    as [l|] eqn:El; simpl in *; [|lia].
  destruct (stored_bounded_run cfg (calls ++ [(now, clientId)]) ∅
              ltac:(intros ? ? H; rewrite lookup_empty in H; discriminate H) c l El).
  lia.
Qed.

Lemma rate_limit_guarantee_witness :
  Z.of_nat (length (List.filter (fun t => 1500 - t <? 1000)
     (allowed_times config_3_per_1000 "a"
        ([(0, "a"); (400, "a"); (500, "b"); (800, "a"); (900, "a")] ++ [(1500, "a")]) ∅)))
  <= Z.max 0 3.
Proof.
  apply (rate_limit_guarantee config_3_per_1000
           [(0, "a"); (400, "a"); (500, "b"); (800, "a"); (900, "a")] 1500 "a" "a").
  unfold RateLimit.clock_monotone. simpl.
  repeat (constructor; [|try (constructor; lia)]). constructor.
Defined.

(** X6. The limiter keeps between one and [maxRequests] timestamps for
    every client it knows, after any calls whatever the clock: its
    memory per client is bounded by the limit. *)
Theorem limiter_memory_bound (cfg : Config) (calls : list (Z * string))
    (c : string) (l : list Z) :
  RateLimit.map_after cfg calls !! c = Some l ->
  (1 <= length l)%nat /\ Z.of_nat (length l) <= MAX_REQUESTS cfg.
Proof.
  apply stored_bounded_run. intros c' l' H. rewrite lookup_empty in H. discriminate H.
Qed.

Lemma limiter_memory_bound_witness :
  (1 <= length [10; 20; 1005]%Z)%nat
  /\ Z.of_nat (length [10; 20; 1005]) <= MAX_REQUESTS config_3_per_1000.
Proof.
  apply (limiter_memory_bound config_3_per_1000
           [(0, "a"); (10, "a"); (20, "a"); (30, "a"); (1005, "a"); (1006, "a")] "a").
  vm_compute. reflexivity.
Defined.

(** X7. The limiter recovers: when every timestamp stored for a client
    is at least [windowMs] old and the limit is at least one, the call is
    allowed and the stored sequence becomes the time of this call
    alone. *)
Theorem limiter_recovers (cfg : Config) (now : Z) (clientId : string)
    (m : gmap string (list Z)) :
  1 <= MAX_REQUESTS cfg ->
  (forall t, In t (RateLimit.stored clientId m) -> WINDOW_MS cfg <= now - t) ->
  RateLimit.checkRateLimit cfg now clientId m = (true, <[clientId := [now]]> m).
Proof.
  intros Hmax Hold.
  assert (RateLimit.kept cfg now clientId m = []) as Hk.
  { unfold RateLimit.kept. apply filter_none. intros t Ht.
    apply Z.ltb_ge. now apply Hold. }
  rewrite (checkRateLimit_allowed cfg now clientId m); rewrite Hk; simpl; [reflexivity|lia].
Qed.

Lemma limiter_recovers_witness :
  RateLimit.checkRateLimit config_3_per_1000 2000 "a" {[ "a" := [10; 20; 1000] ]}
  = (true, <[ "a" := [2000] ]> {[ "a" := [10; 20; 1000] ]}).
Proof.
  apply (limiter_recovers config_3_per_1000 2000 "a" {[ "a" := [10; 20; 1000] ]}).
  - simpl. lia.
  - intros t Ht.
    assert (RateLimit.stored "a" ({[ "a" := [10; 20; 1000] ]} : gmap string (list Z))
            = [10; 20; 1000]) as E by reflexivity.
    rewrite E in Ht. simpl in Ht. simpl.
    destruct Ht as [<-|[<-|[<-|[]]]]; lia.
Defined.

(** ** Configuration: numbers and origins from the environment *)

Example parseInt_examples :
  Env.parseInt "42" = Some 42 /\ Env.parseInt "  -17ms" = Some (-17)
  /\ Env.parseInt "0x1F" = Some 31 /\ Env.parseInt "+0" = Some 0
  /\ Env.parseInt "ten" = None /\ Env.parseInt EmptyString = None
  /\ Env.parseInt "0x" = None /\ Env.parseInt "1e3" = Some 1.
Proof. repeat split. Qed.

Example number_or_examples :
  Env.number_or (Some "0") 3 = 3 /\ Env.number_or (Some "-1") 3 = -1
  /\ Env.number_or (Some "5 retries") 3 = 5 /\ Env.number_or (Some "none") 3 = 3.
Proof. repeat split. Qed.

Section EnvFacts.

Lemma number_or_nonzero (v : option string) (fallback : Z) :
  fallback <> 0 -> Env.number_or v fallback <> 0.
Proof.
  intros H. unfold Env.number_or.
  destruct (Env.parseInt (default EmptyString v)) as [n|]; [|exact H].
  destruct (Z.eqb_spec n 0); assumption.
Qed.

Lemma number_or_unset (v : option string) (fallback : Z) :
  v = None \/ v = Some EmptyString -> Env.number_or v fallback = fallback.
Proof. intros [->| ->]; reflexivity. Qed.

Lemma split_nonempty (sep : ascii) (s : string) : Env.split sep s <> [].
Proof.
  destruct s as [|c s]; simpl; [discriminate|].
  destruct (Ascii.eqb c sep); [discriminate|].
  destruct (Env.split sep s); discriminate.
Qed.

Lemma join_cons (sep : ascii) (p : string) (ps : list string) :
  ps <> [] ->
  Env.join sep (p :: ps) = String.append p (String sep (Env.join sep ps)).
Proof. destruct ps; [congruence|reflexivity]. Qed.

Lemma join_cons_char (sep c : ascii) (p : string) (ps : list string) :
  Env.join sep (String c p :: ps) = String c (Env.join sep (p :: ps)).
Proof. destruct ps; reflexivity. Qed.

(** Splitting and joining with the same separator gives the text back. *)
Lemma join_split (sep : ascii) (s : string) : Env.join sep (Env.split sep s) = s.
Proof.
  induction s as [|c s IH]; [reflexivity|]. simpl.
  destruct (Ascii.eqb_spec c sep) as [->|Hne].
  - rewrite join_cons by apply split_nonempty. rewrite IH. reflexivity.
  - pose proof (split_nonempty sep s) as Hs.
    destruct (Env.split sep s) as [|p ps]; [congruence|].
    rewrite join_cons_char, IH. reflexivity.
Qed.

(** No piece holds the separator. *)
Lemma split_pieces (sep : ascii) (s : string) :
  forall p, In p (Env.split sep s) -> Str.contains sep p = false.
Proof.
  induction s as [|c s IH]; simpl.
  - intros p [<-|[]]. reflexivity.
  - destruct (Ascii.eqb_spec c sep) as [->|Hne].
    + intros p [<-|Hp]; [reflexivity | now apply IH].
    + destruct (Env.split sep s) as [|q qs].
      * intros p [<-|[]]. simpl. rewrite orb_false_r. apply Ascii.eqb_neq. congruence.
      * intros p [<-|Hp].
        -- simpl. rewrite (IH q (or_introl eq_refl)), orb_false_r.
           apply Ascii.eqb_neq. congruence.
        -- apply IH. now right.
Qed.

Lemma isOriginAllowed_In (env : Env.ImportMetaEnv) (origin : string) :
  Env.isOriginAllowed env origin = true <-> In origin (Env.allowedOrigins env).
Proof.
  unfold Env.isOriginAllowed. rewrite List.existsb_exists. split.
  - intros (x & Hx & He). apply String.eqb_eq in He. now subst.
  - intros H. exists origin. split; [exact H | apply String.eqb_refl].
Qed.

End EnvFacts.

(** X8. Whatever the environment, every number of the configuration is
    a non-zero integer and caching is enabled: a variable that is not
    set, is empty, does not start with a number or gives zero leaves the
    default in place.  So a setting of 0 cannot be chosen (retries, for
    one, cannot be switched off with 0), and with nothing set the
    configuration is the default one. *)
Theorem config_numbers (env : Env.ImportMetaEnv) :
  let cfg := Env.API_CONFIG_of env in
  (TIMEOUT_MS cfg <> 0 /\ MAX_RETRIES cfg <> 0 /\ RETRY_DELAY_MS cfg <> 0
   /\ DURATION_MS cfg <> 0 /\ MAX_REQUESTS cfg <> 0 /\ WINDOW_MS cfg <> 0
   /\ CACHE_ENABLED cfg = true)
  /\ (forall v fallback,
        (v = None \/ v = Some EmptyString
         \/ Env.parseInt (default EmptyString v) = None
         \/ Env.parseInt (default EmptyString v) = Some 0) ->
        Env.number_or v fallback = fallback)
  /\ Env.API_CONFIG_of Env.empty_env = API_CONFIG_default.
Proof.
  intros cfg. subst cfg. split; [|split; [|reflexivity]].
  - repeat split; try (apply number_or_nonzero; discriminate).
  - intros v fallback [H|[H|[H|H]]].
    + apply number_or_unset. now left.
    + apply number_or_unset. now right.
    + unfold Env.number_or. now rewrite H.
    + unfold Env.number_or. now rewrite H.
Qed.

(** X9. When the variable of the allowed origins is set and not empty,
    the origins are its pieces between the commas: joined with commas
    they give the variable back, there is at least one, and none holds a
    comma, so that no origin with a comma is ever allowed.  In every
    environment an origin is allowed exactly when it is in the list, and
    then it is a source of the connect-src directive. *)
Theorem allowed_origins (env : Env.ImportMetaEnv) (origin : string) :
  (forall s,
     Env.VITE_ALLOWED_ORIGINS env = Some s -> s <> EmptyString ->
     Env.join Env.comma (Env.allowedOrigins env) = s
     /\ Env.allowedOrigins env <> []
     /\ (Env.isOriginAllowed env origin = true ->
         Str.contains Env.comma origin = false))
  /\ (Env.isOriginAllowed env origin = true <-> In origin (Env.allowedOrigins env))
  /\ (Env.isOriginAllowed env origin = true -> In origin (Env.connect_src env)).
Proof.
  split; [|split].
  - intros s Hs Hne. unfold Env.isOriginAllowed, Env.allowedOrigins. rewrite Hs.
    destruct s as [|c s]; [congruence|]. cbn [Str.truthy].
    split; [apply join_split|]. split; [apply split_nonempty|].
    rewrite List.existsb_exists. intros (x & Hx & He).
    apply String.eqb_eq in He. subst x. now apply (split_pieces Env.comma (String c s)).
  - apply isOriginAllowed_In.
  - intros H. right. now apply isOriginAllowed_In.
Qed.

Lemma allowed_origins_witness :
  Env.join Env.comma
    (Env.allowedOrigins
       {| Env.VITE_API_TIMEOUT := None; Env.VITE_API_MAX_RETRIES := Some "0";
          Env.VITE_API_RETRY_DELAY := None; Env.VITE_API_CACHE_DURATION := None;
          Env.VITE_API_RATE_LIMIT_REQUESTS := None;
          Env.VITE_API_RATE_LIMIT_WINDOW_MS := None;
          Env.VITE_ALLOWED_ORIGINS := Some "https://a.example,https://b.example" |})
  = "https://a.example,https://b.example".
Proof.
  apply (proj1 (allowed_origins
           {| Env.VITE_API_TIMEOUT := None; Env.VITE_API_MAX_RETRIES := Some "0";
              Env.VITE_API_RETRY_DELAY := None; Env.VITE_API_CACHE_DURATION := None;
              Env.VITE_API_RATE_LIMIT_REQUESTS := None;
              Env.VITE_API_RATE_LIMIT_WINDOW_MS := None;
              Env.VITE_ALLOWED_ORIGINS := Some "https://a.example,https://b.example" |}
           "https://a.example") "https://a.example,https://b.example");
    [reflexivity | discriminate].
Defined.

Lemma config_numbers_witness :
  Env.number_or (Some "0") DEFAULT_MAX_RETRIES = DEFAULT_MAX_RETRIES.
Proof.
  apply (proj1 (proj2 (config_numbers Env.empty_env))).
  right. right. right. reflexivity.
Defined.

(** ** The report table: truncation and search *)

Example truncate_examples :
  Table.truncate "short" 50 = "short"
  /\ Table.truncate "<script>alert(1)</script>" 10 = "&lt;script..."
  /\ Table.truncate "abc<def" 4 = "abc&..."
  /\ Table.truncate "abcdef" (-1) = "...".
Proof. repeat split. Qed.

Section TableFacts.

Lemma substring_length (n : nat) (s : string) :
  String.length (String.substring 0 n s) = Nat.min n (String.length s).
Proof.
  revert n. induction s as [|c s IH]; intros [|n]; simpl; try reflexivity.
  now rewrite IH.
Qed.

Lemma substring_contains (c : ascii) (n : nat) (s : string) :
  Str.contains c s = false -> Str.contains c (String.substring 0 n s) = false.
Proof.
  revert n. induction s as [|d s IH]; intros [|n]; simpl; try reflexivity.
  intros H. apply orb_false_iff in H as [H1 H2]. now rewrite H1, IH.
Qed.

Lemma substring_append (a b : string) :
  String.substring 0 (String.length a) (String.append a b) = a.
Proof.
  induction a as [|c a IH].
  - rewrite append_nil_l. destruct b; reflexivity.
  - rewrite append_cons. simpl. now rewrite IH.
Qed.

Lemma sanitizeHtml_harmless (s : string) : harmless (sanitizeHtml s).
Proof. intros c Hc. rewrite sanitizeHtml_escape_all. now apply escape_all_clean. Qed.

Lemma truncate_harmless (str : string) (maxLength : Z) :
  harmless (Table.truncate str maxLength).
Proof.
  unfold Table.truncate. destruct (_ >? _).
  - intros c Hc. rewrite contains_app.
    unfold Table.substring_to.
    rewrite (substring_contains c _ _ (sanitizeHtml_harmless str c Hc)). simpl.
    unfold dangerous in Hc.
    repeat (apply orb_true_iff in Hc; destruct Hc as [Hc|Hc]);
      apply Ascii.eqb_eq in Hc; subst c; reflexivity.
  - apply sanitizeHtml_harmless.
Qed.

Lemma truncate_long (str : string) (maxLength : Z) :
  Table.length (sanitizeHtml str) > maxLength ->
  Table.truncate str maxLength
  = String.append (Table.substring_to maxLength (sanitizeHtml str)) "..."
  /\ String.length (Table.substring_to maxLength (sanitizeHtml str))
     = Z.to_nat maxLength.
Proof.
  intros H. unfold Table.truncate.
  rewrite (proj2 (Z.gtb_gt _ _)) by lia. split; [reflexivity|].
  unfold Table.substring_to, Table.length in *. rewrite substring_length. lia.
Qed.

Lemma truncate_short (str : string) (maxLength : Z) :
  Table.length (sanitizeHtml str) <= maxLength ->
  Table.truncate str maxLength = sanitizeHtml str.
Proof.
  intros H. unfold Table.truncate.
  destruct (Z.gtb_spec (Table.length (sanitizeHtml str)) maxLength); [lia|reflexivity].
Qed.


Lemma to_lower_char_dangerous (c : ascii) :
  dangerous (Table.to_lower_char c) = dangerous c.
Proof.
  destruct c as [b0 b1 b2 b3 b4 b5 b6 b7].
  destruct b0, b1, b2, b3, b4, b5, b6, b7; reflexivity.
Qed.



(** Lowering the case and stripping the four characters commute. *)
Lemma sanitizeInput_toLowerCase (s : string) :
  sanitizeInput (Table.toLowerCase s) = Table.toLowerCase (sanitizeInput s).
Proof.
  unfold sanitizeInput. induction s as [|c s IH]; simpl; [reflexivity|].
  rewrite to_lower_char_dangerous.
  destruct (dangerous c); [rewrite !append_nil_l | simpl; f_equal]; exact IH.
Qed.



Lemma includes_empty (s : string) : Str.includes EmptyString s = true.
Proof. destruct s; reflexivity. Qed.



Lemma filter_all {A} (p : A -> bool) (l : list A) :
  (forall x, p x = true) -> List.filter p l = l.
Proof.
  intros H. induction l as [|x l IH]; simpl; [reflexivity|]. now rewrite H, IH.
Qed.

Lemma sanitizeInput_all_dangerous (s : string) :
  (forall c, In c (Str.chars s) -> dangerous c = true) ->
  sanitizeInput s = EmptyString.
Proof.
  unfold sanitizeInput, Str.chars. induction s as [|c s IH]; simpl; intros H; [reflexivity|].
  rewrite (H c (or_introl eq_refl)), append_nil_l. apply IH. intros d Hd. apply H. now right.
Qed.

End TableFacts.

(** X10. [truncate]: a text whose escaped form has at most [maxLength]
    characters is shown escaped and whole; a longer one is cut to the
    first [maxLength] characters of the escaped form followed by three
    dots.  The result never has more than [maxLength + 3] characters (3
    for a negative [maxLength]), never holds one of the four characters,
    and truncating it again changes nothing. *)
Theorem truncate_spec (str : string) (maxLength : Z) :
  (Table.length (sanitizeHtml str) <= maxLength ->
     Table.truncate str maxLength = sanitizeHtml str)
  /\ (Table.length (sanitizeHtml str) > maxLength ->
      Table.truncate str maxLength
      = String.append (String.substring 0 (Z.to_nat maxLength) (sanitizeHtml str)) "..."
      /\ Table.length (Table.truncate str maxLength) = Z.max 0 maxLength + 3)
  /\ Table.length (Table.truncate str maxLength) <= Z.max 0 maxLength + 3
  /\ (forall c, dangerous c = true ->
        Str.contains c (Table.truncate str maxLength) = false)
  /\ Table.truncate (Table.truncate str maxLength) maxLength
     = Table.truncate str maxLength.
Proof.
  assert (Table.length (sanitizeHtml str) > maxLength ->
          Table.length (Table.truncate str maxLength) = Z.max 0 maxLength + 3) as Hlong.
  { intros H. destruct (truncate_long str maxLength H) as [-> Hn].
    unfold Table.length. rewrite string_length_append, Hn. simpl. lia. }
  split; [apply truncate_short|].
  split; [intros H; split; [apply (truncate_long str maxLength H) | now apply Hlong]|].
  split.
  { destruct (Z_le_gt_dec (Table.length (sanitizeHtml str)) maxLength) as [H|H].
    - rewrite (truncate_short str maxLength H). lia.
    - rewrite (Hlong H). lia. }
  split; [apply truncate_harmless|].
  pose proof (proj2 (sanitizeHtml_fixed (Table.truncate str maxLength))
                (truncate_harmless str maxLength)) as Hfix.
  destruct (Z_le_gt_dec (Table.length (sanitizeHtml str)) maxLength) as [H|H].
  - rewrite (truncate_short str maxLength H).
    rewrite (truncate_short (sanitizeHtml str) maxLength);
      rewrite sanitizeHtml_idempotent; [reflexivity | exact H].
  - specialize (Hlong H). destruct (truncate_long str maxLength H) as [E Hn].
    unfold Table.truncate at 1. rewrite Hfix.
    rewrite (proj2 (Z.gtb_gt _ _)) by lia.
    rewrite E at 1. unfold Table.substring_to at 1. rewrite <- Hn at 1.
    rewrite substring_append. now rewrite E.
Qed.

Lemma truncate_spec_witness :
  Table.truncate "a < b" 50 = sanitizeHtml "a < b".
Proof.
  apply (proj1 (truncate_spec "a < b" 50)). vm_compute. discriminate.
Defined.

(** X11. A query made only of the four characters that are stripped
    from it, the empty query among them, filters nothing out: every
    report is shown. *)
Theorem filterReports_blank_query (searchQuery : string) (reports : list Table.Report) :
  (forall c, In c (Str.chars searchQuery) -> dangerous c = true) ->
  Table.filterReports searchQuery reports = reports.
Proof.
  intros H. unfold Table.filterReports.
  rewrite sanitizeInput_toLowerCase, (sanitizeInput_all_dangerous searchQuery H). simpl.
  apply filter_all. intros r. unfold Table.matches. now rewrite includes_empty.
Qed.

Lemma filterReports_blank_query_witness :
  Table.filterReports "<>" [sample_table_report] = [sample_table_report].
Proof.
  apply (filterReports_blank_query "<>" [sample_table_report]).
  intros c Hc. simpl in Hc. destruct Hc as [<-|[<-|[]]]; reflexivity.
Defined.

Example filterReports_examples :
  Table.filterReports "Evil" [sample_table_report] = [sample_table_report]
  /\ Table.filterReports "<evil>" [sample_table_report] = [sample_table_report]
  /\ Table.filterReports "nomatch" [sample_table_report] = [].
Proof. repeat split. Qed.



(** ** Resilient fetch and cache: effects of a run *)

Section EffectsFacts.

Variable cfg : Config.
Variable clientId : string.
Variable network : nat -> string -> Reply.

Local Abbreviation retrying := (fetchWithRetry cfg clientId network).
Local Abbreviation caching := (fetchWithCache cfg clientId network).
Local Abbreviation allows := (limiter_allows cfg clientId).
Local Abbreviation after_check := (checked cfg clientId).
Local Abbreviation outcome_of := (attempt_outcome cfg).

Lemma attempt_outcome_is_rate_limit (reply : Reply) :
  is_rate_limit (outcome_of reply) = false.
Proof.
  pose proof (attempt_outcome_not_rate_limit cfg reply) as H.
  destruct (outcome_of reply) as [r|e]; [reflexivity|].
  destruct e; try reflexivity. congruence.
Qed.

(** What a run of [fetchWithRetry] does to the world: nothing to the
    cache; the flag is raised exactly by a denial; the clock does not go
    back; the trace grows by rounds of a request to [url] and the retry
    delay, and by one more request unless the run ends with a denial. *)
Lemma fetchWithRetry_effects (n : nat) : forall (url : string) (retryCount : Z) (w : World),
  Z.to_nat (MAX_RETRIES cfg - retryCount) = n ->
  cache (snd (retrying url retryCount w)) = cache w
  /\ rateLimitExceeded (snd (retrying url retryCount w))
     = rateLimitExceeded w || is_rate_limit (fst (retrying url retryCount w))
  /\ clock w <= clock (snd (retrying url retryCount w))
  /\ exists k : nat,
       (k <= n)%nat
       /\ trace (snd (retrying url retryCount w))
          = trace w ++ retry_rounds url (RETRY_DELAY_MS cfg) k
            ++ (if is_rate_limit (fst (retrying url retryCount w)) then []
                else [EvFetch url]).
Proof.
  induction n as [|n IH]; intros url retryCount w Hn.
  - destruct (allows w) eqn:Ha.
    + rewrite (fetchWithRetry_allowed_run cfg clientId network url retryCount w Ha), attempt_run.
      rewrite checked_trace.
      pose proof (attempt_outcome_is_rate_limit (network (fetches (trace w)) url)) as Hrl.
      destruct (outcome_of (network (fetches (trace w)) url)) as [r|e].
      * simpl. rewrite orb_false_r. repeat split; [lia|]. exists O. split; [lia|reflexivity].
      * rewrite (proj2 (Z.ltb_ge retryCount (MAX_RETRIES cfg))) by lia.
        cbn [fst snd]. rewrite Hrl, orb_false_r. simpl.
        repeat split; [lia|]. exists O. split; [lia|reflexivity].
    + rewrite (fetchWithRetry_denied_run cfg clientId network url retryCount w Ha).
      simpl. rewrite orb_true_r.
      repeat split; [lia|]. exists O. split; [lia|]. simpl. now rewrite app_nil_r.
  - destruct (allows w) eqn:Ha.
    + rewrite (fetchWithRetry_allowed_run cfg clientId network url retryCount w Ha), attempt_run.
      rewrite checked_trace.
      pose proof (attempt_outcome_is_rate_limit (network (fetches (trace w)) url)) as Hrl.
      destruct (outcome_of (network (fetches (trace w)) url)) as [r|e].
      * simpl. rewrite orb_false_r. repeat split; [lia|]. exists O. split; [lia|reflexivity].
      * rewrite (proj2 (Z.ltb_lt retryCount (MAX_RETRIES cfg))) by lia.
        match goal with
        | |- context [retrying url (retryCount + 1) ?w1] =>
            destruct (IH url (retryCount + 1) w1 ltac:(lia))
              as (Hc & Hf & Hclk & k & Hk & Htr)
        end.
        simpl in Hc, Hf, Hclk, Htr.
        split; [exact Hc|]. split; [exact Hf|]. split; [lia|].
        exists (S k). split; [lia|]. rewrite Htr, <- !app_assoc. reflexivity.
    + rewrite (fetchWithRetry_denied_run cfg clientId network url retryCount w Ha).
      simpl. rewrite orb_true_r.
      repeat split; [lia|]. exists O. split; [lia|]. simpl. now rewrite app_nil_r.
Qed.

(** A call of [fetchWithCache], by the lookup and by how the fetch of a
    miss ends. *)
Lemma fetchWithCache_cases (url : string) (w : World) :
  caching url w
  = match cache_hit cfg url w with
    | Some d => (Return d, w)
    | None =>
        match retrying url 0 w with
        | (Return response, w1) =>
            match body response with
            | Some d =>
                (Return d,
                 if CACHE_ENABLED cfg
                 then set_cache (<[url := {| data := d; timestamp := clock w1 |}]> (cache w1)) w1
                 else w1)
            | None => (Throw InvalidJson, w1)
            end
        | (Throw e, w1) => (Throw e, w1)
        end
    end.
Proof.
  unfold fetchWithCache, bind, gets.
  destruct (cache_hit cfg url w); [reflexivity|].
  destruct (retrying url 0 w) as [[response|e] w1]; [|reflexivity].
  unfold json. destruct (body response); [|reflexivity].
  destruct (CACHE_ENABLED cfg); reflexivity.
Qed.

Lemma fetchWithCache_flag (url : string) (w : World) :
  rateLimitExceeded (snd (caching url w))
  = rateLimitExceeded w || is_rate_limit (fst (caching url w)).
Proof.
  rewrite fetchWithCache_cases.
  destruct (cache_hit cfg url w); [simpl; now rewrite orb_false_r|].
  destruct (fetchWithRetry_effects _ url 0 w eq_refl) as (_ & H & _).
  destruct (retrying url 0 w) as [[response|e] w1]; simpl in *; [|exact H].
  rewrite orb_false_r in H.
  destruct (body response); simpl; rewrite orb_false_r; [|exact H].
  destruct (CACHE_ENABLED cfg); exact H.
Qed.

End EffectsFacts.

(** X14. Every run of [fetchWithRetry] adds to the trace of effects a
    number of rounds, at most the retries left, each a request to the
    URL of the call followed by a delay of [RETRY_DELAY_MS], and then
    one more request to that URL unless the run ends with a denial by
    the limiter: no other URL is requested, no other delay is awaited,
    and two requests are never made without the delay between them. *)
Theorem fetchWithRetry_trace (cfg : Config) (clientId : string)
    (network : nat -> string -> Reply) (url : string) (retryCount : Z) (w : World) :
  let result := fetchWithRetry cfg clientId network url retryCount w in
  exists k : nat,
    (k <= Z.to_nat (MAX_RETRIES cfg - retryCount))%nat
    /\ trace (snd result)
       = trace w ++ retry_rounds url (RETRY_DELAY_MS cfg) k
         ++ (if is_rate_limit (fst result) then [] else [EvFetch url]).
Proof.
  intros result. subst result.
  destruct (fetchWithRetry_effects cfg clientId network _ url retryCount w eq_refl)
    as (_ & _ & _ & H).
  exact H.
Qed.

(** X15. The flag [rateLimitExceeded] is raised by a denial of the
    limiter and by nothing else, and nothing lowers it: after a call of
    [fetchWithRetry] or of [fetchWithCache] it is set exactly when it
    was set before or the call ended with the rate-limit error. *)
Theorem rateLimitExceeded_flag (cfg : Config) (clientId : string)
    (network : nat -> string -> Reply) (url : string) (retryCount : Z) (w : World) :
  rateLimitExceeded (snd (fetchWithRetry cfg clientId network url retryCount w))
  = rateLimitExceeded w
    || is_rate_limit (fst (fetchWithRetry cfg clientId network url retryCount w))
  /\ rateLimitExceeded (snd (fetchWithCache cfg clientId network url w))
     = rateLimitExceeded w
       || is_rate_limit (fst (fetchWithCache cfg clientId network url w)).
Proof.
  split.
  - now destruct (fetchWithRetry_effects cfg clientId network _ url retryCount w eq_refl)
      as (_ & H & _).
  - apply fetchWithCache_flag.
Qed.

(** X16. A call of [fetchWithCache] for a URL touches no entry of the
    cache but that of the URL, removes no entry (a stale one stays until
    a successful fetch replaces it), and leaves the whole cache as it was
    when it fails. *)
Theorem fetchWithCache_frame (cfg : Config) (clientId : string)
    (network : nat -> string -> Reply) (url : string) (w : World) :
  let result := fetchWithCache cfg clientId network url w in
  (forall url', url <> url' -> cache (snd result) !! url' = cache w !! url')
  /\ (forall url', is_Some (cache w !! url') -> is_Some (cache (snd result) !! url'))
  /\ (forall e, fst result = Throw e -> cache (snd result) = cache w).
Proof.
  intros result. subst result. rewrite fetchWithCache_cases.
  destruct (cache_hit cfg url w); [simpl; repeat split; auto; discriminate|].
  destruct (fetchWithRetry_effects cfg clientId network _ url 0 w eq_refl)
    as (Hc & _).
  destruct (fetchWithRetry cfg clientId network url 0 w) as [[response|e] w1];
    simpl in *; [|rewrite Hc; repeat split; auto].
  destruct (body response) as [d|]; simpl; [|rewrite Hc; repeat split; auto].
  destruct (CACHE_ENABLED cfg); simpl; rewrite Hc; [|repeat split; auto; discriminate].
  split; [|split].
  - intros url' Hne. now apply lookup_insert_ne.
  - intros url' Hsome. destruct (decide (url = url')) as [->|Hne].
    + rewrite lookup_insert_eq. eauto.
    + now rewrite lookup_insert_ne.
  - discriminate.
Qed.

Lemma fetchWithCache_frame_witness :
  cache (snd (fetchWithCache API_CONFIG_default "client_1" network_down "/api/v1/reports"
                fresh_world))
  = cache fresh_world.
Proof.
  apply (proj2 (proj2 (fetchWithCache_frame API_CONFIG_default "client_1" network_down
                         "/api/v1/reports" fresh_world)) (HttpError 500)).
  vm_compute. reflexivity.
Defined.

(** X17. With caching disabled, [fetchWithCache] never reads or writes
    the cache: the call is the resilient fetch followed by the parsing
    of the body, whatever the cache holds. *)
Theorem fetchWithCache_disabled (cfg : Config) (clientId : string)
    (network : nat -> string -> Reply) (url : string) (w : World) :
  CACHE_ENABLED cfg = false ->
  cache (snd (fetchWithCache cfg clientId network url w)) = cache w
  /\ fetchWithCache cfg clientId network url w
     = match fetchWithRetry cfg clientId network url 0 w with
       | (Return response, w1) =>
           match body response with
           | Some d => (Return d, w1)
           | None => (Throw InvalidJson, w1)
           end
       | (Throw e, w1) => (Throw e, w1)
       end.
Proof.
  intros Hoff. rewrite fetchWithCache_cases. unfold cache_hit. rewrite Hoff.
  destruct (fetchWithRetry_effects cfg clientId network _ url 0 w eq_refl) as (Hc & _).
  destruct (fetchWithRetry cfg clientId network url 0 w) as [[response|e] w1];
    simpl in *; [|now split].
  destruct (body response); now split.
Qed.



Lemma fetchWithCache_disabled_witness :
  cache (snd (fetchWithCache
                {| TIMEOUT_MS := 30000; MAX_RETRIES := 3; RETRY_DELAY_MS := 1000;
                   CACHE_ENABLED := false; DURATION_MS := 300000;
                   MAX_REQUESTS := 100; WINDOW_MS := 900000 |}
                "client_1" (network_failing_first 0 []) "/api/v1/reports" fresh_world))
  = cache fresh_world.
Proof.
  apply (proj1 (fetchWithCache_disabled
                  {| TIMEOUT_MS := 30000; MAX_RETRIES := 3; RETRY_DELAY_MS := 1000;
                     CACHE_ENABLED := false; DURATION_MS := 300000;
                     MAX_REQUESTS := 100; WINDOW_MS := 900000 |}
                  "client_1" (network_failing_first 0 []) "/api/v1/reports" fresh_world
                  eq_refl)).
Defined.

(** ** The statistics view after mounting *)

Example message_examples :
  StatsView.message (fun _ => "Failed to fetch") (HttpError 503) = "HTTP error! status: 503"
  /\ StatsView.message (fun _ => "Failed to fetch") NetworkFailure = "Failed to fetch".
Proof. split; reflexivity. Qed.

(** X19. The view of the statistics component once its mount callback
    has run, for a component just created (flag not raised): the tables
    of the fetched reports when the fetch succeeds; else the error
    banner with the escaped message, or, for an error whose message is
    empty, the empty tables.  It is never the spinner, and never the
    rate-limit warning: a denial by the limiter shows the error banner,
    whose branch of the template comes first. *)
Theorem mounted_view (cfg : Config) (clientId : string)
    (network : nat -> string -> Reply) (parseUA : string -> UAResult)
    (BASE_URL : string) (hostMessage : Error -> string) (w : World) :
  rateLimitExceeded w = false ->
  let result := fetchWithCache cfg clientId network (StatsView.reports_url BASE_URL) w in
  let view :=
    StatsView.render
      (StatsView.onMount cfg clientId network parseUA BASE_URL hostMessage
         (w, StatsView.initial)) in
  view
  = match fst result with
    | Return fetched => StatsView.Tables (calculateStatistics parseUA fetched)
    | Throw err =>
        if Str.truthy (StatsView.message hostMessage err)
        then StatsView.ErrorBanner (sanitizeHtml (StatsView.message hostMessage err))
        else StatsView.Tables StatsView.no_statistics
    end
  /\ view <> StatsView.RateLimitWarning
  /\ view <> StatsView.Spinner
  /\ (fst result = Throw RateLimitExceeded ->
      view = StatsView.ErrorBanner "Rate limit exceeded. Please try again later.").
Proof.
  intros Hflag result view. subst result view. unfold StatsView.onMount.
  pose proof (fetchWithCache_flag cfg clientId network (StatsView.reports_url BASE_URL) w)
    as Hf.
  rewrite Hflag in Hf.
  destruct (fetchWithCache cfg clientId network (StatsView.reports_url BASE_URL) w)
    as [[fetched|err] w'].
  - simpl in *. rewrite Hf. repeat split; discriminate.
  - simpl in Hf. unfold StatsView.render. cbn [StatsView.loading StatsView.error
      StatsView.statistics StatsView.initial fst snd].
    destruct (Str.truthy (StatsView.message hostMessage err)) eqn:Et.
    + repeat split; try discriminate. intros [= ->]. reflexivity.
    + assert (rateLimitExceeded w' = false) as ->.
      { rewrite Hf. destruct err; try reflexivity. discriminate Et. }
      repeat split; try discriminate. intros [= ->]. discriminate Et.
Qed.

Lemma mounted_view_witness :
  StatsView.render
    (StatsView.onMount config_1_per_1000 "client_1" network_down parse_nothing
       "http://localhost:8081" (fun _ => "Failed to fetch")
       (throttled_world, StatsView.initial))
  = StatsView.ErrorBanner "Rate limit exceeded. Please try again later.".
Proof.
  apply (proj2 (proj2 (proj2 (mounted_view config_1_per_1000 "client_1" network_down
           parse_nothing "http://localhost:8081" (fun _ => "Failed to fetch")
           throttled_world eq_refl)))).
  vm_compute. reflexivity.
Defined.

(** ** Statistics: the rows *)

Section RowsFacts.

Variable parseUA : string -> UAResult.

Lemma sanitizeInput_harmless (s : string) : harmless (sanitizeInput s).
Proof. intros c Hc. now apply sanitizeInput_clean. Qed.

Lemma harmless_empty : harmless EmptyString.
Proof. intros c Hc. reflexivity. Qed.

(** The keys a table of the counting loop over [keys] can hold. *)
Lemma top10_keys (keys : list string) (e : Entry) :
  In e (top10 (Counts.count_all keys)) -> In (key e) keys.
Proof.
  intros He. destruct (top10_is_top10 keys) as (_ & _ & _ & Hrows & _).
  now apply Hrows.
Qed.

Lemma mapped_keys_harmless {A} (f : A -> string) (l : list A) (k : string) :
  (forall x, harmless (f x)) -> In k (map f l) -> harmless k.
Proof.
  intros Hf Hk. apply List.in_map_iff in Hk as (x & <- & _). apply Hf.
Qed.

Lemma referrer_key_harmless (r : Report) : harmless (referrer_key r).
Proof.
  unfold referrer_key. destruct (referrer (report r)) as [s|]; [|apply harmless_empty].
  destruct (Str.truthy s); [apply sanitizeInput_harmless | apply harmless_empty].
Qed.

(** The seven tables as tables of counting loops. *)
Lemma calculateStatistics_tables (reports : list Report) :
  let stats := calculateStatistics parseUA reports in
  topUserAgents stats = top10 (Counts.count_all (map ua_key reports))
  /\ topIPs stats = top10 (Counts.count_all (map ip_key reports))
  /\ topViolatedDirectives stats = top10 (Counts.count_all (map directive_key reports))
  /\ topReferrers stats
     = top10 (Counts.count_all (List.filter Str.truthy (map referrer_key reports)))
  /\ topBlockedURIs stats = top10 (Counts.count_all (map uri_key reports))
  /\ topOS stats = top10 (Counts.count_all (map (os_key parseUA) reports))
  /\ topBrowsers stats = top10 (Counts.count_all (map (browser_key parseUA) reports)).
Proof.
  unfold calculateStatistics, tally.
  destruct (tally_from parseUA reports empty_tally) as (H1 & H2 & H3 & H4 & H5 & H6 & H7).
  cbn zeta in *. cbn [topUserAgents topIPs topViolatedDirectives topReferrers
                      topBlockedURIs topOS topBrowsers].
  rewrite H1, H2, H3, H4, H5, H6, H7. repeat split.
Qed.

Lemma total_app (l l' : list Entry) : total (l ++ l') = total l + total l'.
Proof. induction l as [|e l IH]; simpl; [reflexivity|]. unfold total in *. simpl. lia. Qed.

Lemma total_perm (l l' : list Entry) : Permutation l l' -> total l = total l'.
Proof.
  induction 1; unfold total in *; simpl; lia.
Qed.

Lemma total_take (n : nat) (l : list Entry) :
  (forall e, In e l -> 0 <= count e) -> total (take n l) <= total l.
Proof.
  revert n. induction l as [|e l IH]; intros [|n] H; unfold total in *; simpl.
  - lia.
  - lia.
  - assert (0 <= fold_right (fun e acc => count e + acc) 0 l); [|specialize (H e (or_introl eq_refl)); lia].
    clear IH. induction l as [|x l IHl]; simpl; [lia|].
    pose proof (H x (or_intror (or_introl eq_refl))).
    assert (0 <= fold_right (fun e0 acc => count e0 + acc) 0 l); [|lia].
    apply IHl. intros y [<-|Hy]; apply H; [now left | right; now right].
  - specialize (IH n ltac:(intros y Hy; apply H; now right)). lia.
Qed.

Lemma total_set (k : string) (v : Z) (m : Counts.t) :
  total (entries (Counts.set k v m))
  = total (entries m) - default 0 (Counts.get k m) + v.
Proof.
  induction m as [|[k' v'] m IH]; unfold total in *; simpl; [lia|].
  destruct (String.eqb_spec k k'); simpl; lia.
Qed.

Lemma total_count_from (keys : list string) : forall m,
  total (entries (fold_left (fun m k => Counts.bump k m) keys m))
  = total (entries m) + Z.of_nat (length keys).
Proof.
  induction keys as [|k keys IH]; intros m; simpl; [lia|].
  rewrite IH. unfold Counts.bump. rewrite total_set. lia.
Qed.

(** The counts of a table add up to at most the number of keys counted,
    and to that number when the table has fewer than ten rows. *)
Lemma top10_total (keys : list string) :
  total (top10 (Counts.count_all keys)) <= Z.of_nat (length keys)
  /\ ((length (top10 (Counts.count_all keys)) < 10)%nat ->
      total (top10 (Counts.count_all keys)) = Z.of_nat (length keys)).
Proof.
  unfold top10. set (l := sort_desc (entries (Counts.count_all keys))).
  assert (total l = Z.of_nat (length keys)) as Hl.
  { subst l. rewrite (total_perm _ _ (sort_desc_perm _)).
    unfold Counts.count_all. rewrite total_count_from. reflexivity. }
  split.
  - rewrite <- Hl. apply total_take. intros e He. subst l.
    apply sort_desc_In, entries_In, count_all_In in He as [_ ->].
    apply occurrences_nonneg.
  - rewrite length_take. intros Hlen. rewrite firstn_all2 by lia. exact Hl.
Qed.

End RowsFacts.

(** X20. Every row of every table has a key free of the four dangerous
    characters, so the escaping applied when the row is shown leaves the
    key as it is. *)
Theorem statistics_keys_harmless (parseUA : string -> UAResult) (reports : list Report)
    (e : Entry) :
  In e (all_rows (calculateStatistics parseUA reports)) ->
  (forall c, dangerous c = true -> Str.contains c (key e) = false)
  /\ sanitizeHtml (key e) = key e.
Proof.
  intros He.
  assert (harmless (key e)) as H; [|split; [exact H | now apply sanitizeHtml_fixed]].
  destruct (calculateStatistics_tables parseUA reports)
    as (H1 & H2 & H3 & H4 & H5 & H6 & H7).
  unfold all_rows in He. cbn zeta in *. rewrite H1, H2, H3, H4, H5, H6, H7 in He.
  repeat (apply List.in_app_or in He; destruct He as [He|He]);
    apply top10_keys in He.
  - apply (mapped_keys_harmless ua_key reports); [intros r; apply sanitizeInput_harmless|exact He].
  - apply (mapped_keys_harmless ip_key reports); [intros r; apply sanitizeInput_harmless|exact He].
  - apply (mapped_keys_harmless directive_key reports);
      [intros r; apply sanitizeInput_harmless|exact He].
  - apply List.filter_In in He as [He _].
    apply (mapped_keys_harmless referrer_key reports); [apply referrer_key_harmless|exact He].
  - apply (mapped_keys_harmless uri_key reports); [intros r; apply sanitizeInput_harmless|exact He].
  - apply (mapped_keys_harmless (os_key parseUA) reports);
      [intros r; apply sanitizeInput_harmless|exact He].
  - apply (mapped_keys_harmless (browser_key parseUA) reports);
      [intros r; apply sanitizeInput_harmless|exact He].
Qed.

Lemma statistics_keys_harmless_witness :
  sanitizeHtml "9.9.9.9" = "9.9.9.9".
Proof.
  refine (proj2 (statistics_keys_harmless parse_nothing five_reports
                   {| key := "9.9.9.9"; count := 4 |} _)).
  vm_compute. right. left. reflexivity.
Defined.

(** X21. In each of the six tables that every report counts for (all
    but the referrers), the counts add up to at most the number of
    reports, and to exactly that number when the table has fewer than
    ten rows; the counts of the referrer table add up to at most the
    number of reports that have a referrer. *)
Theorem statistics_totals (parseUA : string -> UAResult) (reports : list Report) :
  let stats := calculateStatistics parseUA reports in
  (forall table, In table (full_tables stats) ->
     total table <= Z.of_nat (length reports)
     /\ ((length table < 10)%nat -> total table = Z.of_nat (length reports)))
  /\ total (topReferrers stats)
     <= Z.of_nat (length (List.filter has_referrer reports)).
Proof.
  intros stats. subst stats.
  destruct (calculateStatistics_tables parseUA reports)
    as (H1 & H2 & H3 & H4 & H5 & H6 & H7).
  cbn zeta in *. split.
  - intros table Ht. unfold full_tables in Ht. rewrite H1, H2, H3, H5, H6, H7 in Ht.
    simpl in Ht.
    destruct Ht as [<-|[<-|[<-|[<-|[<-|[<-|[]]]]]]];
      match goal with
      | |- context [top10 (Counts.count_all (map ?f reports))] =>
          pose proof (top10_total (map f reports)) as Hk; rewrite length_map in Hk; exact Hk
      end.
  - rewrite H4.
    destruct (top10_total (List.filter Str.truthy (map referrer_key reports))) as [Hle _].
    etransitivity; [exact Hle|].
    rewrite <- (referrer_keys_filter reports).
    pose proof (List.filter_length_le Str.truthy
                  (map referrer_key (List.filter has_referrer reports))) as Hf.
    rewrite length_map in Hf. lia.
Qed.

Lemma statistics_totals_witness :
  total (topIPs (calculateStatistics parse_nothing five_reports)) = 5.
Proof.
  refine (proj2 (proj1 (statistics_totals parse_nothing five_reports)
                   (topIPs (calculateStatistics parse_nothing five_reports)) _) _).
  - right. left. reflexivity.
  - vm_compute. repeat constructor.
Defined.
